(** * Judging engine of the coding platform: a shallow embedding

    The development follows the class [CodeExecutor] (the module the
    routes require as [../services/codeExecutor]) and
    [server/routes/submissions.js] (the POST handler and
    [processSubmission]).

    - JavaScript strings are sequences of UTF-16 code units ([list N]).
    - Asynchronous, throwing code is written in a state-and-exception
      monad: over a [World] (disk, log of executed shell commands) for
      the executor, over a [Server] (the world, the document stores, the
      started calls) for the route. Everything the host decides (process
      results, I/O faults, clock, identifiers) is read from a [Host]
      oracle.
    - Numbers that the code only adds and compares are integers ([Z]). *)

From stdpp Require Import gmap strings list pretty.
From Stdlib Require Import ZArith NArith Ascii.

Local Open Scope N_scope.

(** ** JavaScript strings *)

Module JsString.

Definition code_unit := N.
Definition jsstring := list code_unit.

(** An ASCII literal as a JavaScript string. *)
Definition lit (s : string) : jsstring :=
  N_of_ascii <$> String.list_ascii_of_string s.

(** The line feed, ['\n']. *)
Definition LF : code_unit := 10.

(** [WhiteSpace] and [LineTerminator] code points of ECMAScript, the
    characters [String.prototype.trim] strips. All are in the BMP, so a
    code unit decides. *)
Definition is_whitespace (c : code_unit) : bool :=
  match c with
  | 9 | 10 | 11 | 12 | 13 | 32 | 160 | 5760
  | 8232 | 8233 | 8239 | 8287 | 12288 | 65279 => true
  | _ => (8192 <=? c) && (c <=? 8202)
  end.

Fixpoint trimStart (s : jsstring) : jsstring :=
  match s with
  | [] => []
  | c :: r => if is_whitespace c then trimStart r else s
  end.

Fixpoint trimEnd (s : jsstring) : jsstring :=
  match s with
  | [] => []
  | c :: r =>
      match trimEnd r with
      | [] => if is_whitespace c then [] else [c]
      | r' => c :: r'
      end
  end.

(** [s.trim()] *)
Definition trim (s : jsstring) : jsstring := trimEnd (trimStart s).

(** [s.split('\n')]: never empty, [''.split('\n')] is [['']]. *)
Fixpoint split_lines (s : jsstring) : list jsstring :=
  match s with
  | [] => [[]]
  | c :: r =>
      if c =? LF then [] :: split_lines r
      else match split_lines r with
           | [] => [[c]]
           | l :: ls => (c :: l) :: ls
           end
  end.

(** [lines.join('\n')] *)
Fixpoint join_lines (ls : list jsstring) : jsstring :=
  match ls with
  | [] => []
  | [l] => l
  | l :: rest => l ++ LF :: join_lines rest
  end.

(** [s.startsWith(p)] *)
Fixpoint startsWith (p s : jsstring) : bool :=
  match p, s with
  | [], _ => true
  | _ :: _, [] => false
  | a :: p', b :: s' => (a =? b) && startsWith p' s'
  end.

(** [s.includes(p)] *)
Fixpoint includes (s p : jsstring) : bool :=
  startsWith p s ||
  match s with
  | [] => false
  | _ :: r => includes r p
  end.

(** Truthiness of a string: the empty string is falsy. *)
Definition truthy (s : jsstring) : bool :=
  match s with [] => false | _ => true end.

(** [a || b] on strings. *)
Definition or_else (a b : jsstring) : jsstring :=
  if truthy a then a else b.

End JsString.
Import JsString.

(** ** [CodeExecutor.normalizeOutput] *)

Definition normalizeOutput (output : jsstring) : jsstring :=
  trim (join_lines
          (filter (λ line, (0 < length line)%nat)
                  (trim <$> split_lines output))).

(** The transform as the specification words it: split into lines, trim
    trailing whitespace of each line, drop blank lines, rejoin. *)
Definition spec_normalize (output : jsstring) : jsstring :=
  join_lines
    (filter (λ line, (0 < length line)%nat)
            (trimEnd <$> split_lines output)).

(** The transform with both-sided trimming of each line and no final
    trim of the joined text. *)
Definition line_normalize (output : jsstring) : jsstring :=
  join_lines
    (filter (λ line, (0 < length line)%nat)
            (trim <$> split_lines output)).

(** A string that does not begin, respectively end, with whitespace. *)
Definition starts_clean (s : jsstring) : Prop :=
  ∃ a r, s = a :: r ∧ is_whitespace a = false.

Definition ends_clean (s : jsstring) : Prop :=
  ∃ r z, s = r ++ [z] ∧ is_whitespace z = false.

(** ** Values exchanged with the host *)

(** The [code] property of a rejected call: absent, an exit status, or
    an errno name such as ['ENOENT']. *)
Inductive ErrCode :=
| CodeUndefined
| CodeNumber (n : Z)
| CodeString (s : jsstring).

Global Instance ErrCode_eq_dec : EqDecision ErrCode.
Proof. solve_decision. Defined.

(** A thrown [Error] object, with the properties the code inspects. *)
Record JsError := {
  err_message : jsstring;
  err_signal : option jsstring;
  err_code : ErrCode;
  err_stderr : option jsstring
}.

(** A plain [new Error(message)]. *)
Definition new_Error (message : jsstring) : JsError :=
  {| err_message := message; err_signal := None;
     err_code := CodeUndefined; err_stderr := None |}.

(** How a promisified [exec] settles. *)
Inductive ExecOutcome :=
| Resolved (stdout stderr : jsstring)
| Rejected (e : JsError).

Inductive Node :=
| Dir
| File (content : jsstring).

(** ** Data model *)

Inductive Status :=
| Pending | Compiling | Running
| Accepted | WrongAnswer | TimeLimitExceeded | MemoryLimitExceeded
| RuntimeError | CompilationError | PartialCorrect.

Global Instance Status_eq_dec : EqDecision Status.
Proof. solve_decision. Defined.

(** A test case of a problem (the [testCaseSchema]); [tc_id] and
    [tc_points] are absent on plain objects. *)
Record TestCase := {
  tc_id : option jsstring;
  tc_input : jsstring;
  tc_output : jsstring;
  tc_isHidden : bool;
  tc_points : option Z
}.

(** [testCase._id || i] *)
Inductive CaseId :=
| IdOfCase (oid : jsstring)
| IdOfIndex (i : nat).

(** What [runTestCase] returns. *)
Record RunResult := {
  run_passed : bool;
  run_time : Z;
  run_memory : Z;
  run_output : jsstring;
  run_error : jsstring
}.

(** An element of [results] / [testCaseResults]. *)
Record CaseResult := {
  testCaseId : CaseId;
  passed : bool;
  timeTaken : Z;
  memoryUsed : Z;
  input : jsstring;
  expectedOutput : jsstring;
  actualOutput : jsstring;
  error : jsstring;
  score : Z
}.

(** What [compile] returns: [{success: true, time}] or
    [{success: false, error, time}]. *)
Inductive CompileResult :=
| CompileOk (time : Z)
| CompileFail (error : jsstring) (time : Z).

(** The successful return value of [execute]. *)
Record Graded := {
  g_status : Status;
  g_score : Z;
  g_maxScore : Z;
  g_timeTaken : Z;
  g_memoryUsed : Z;
  g_testCasesPassed : nat;
  g_totalTestCases : nat;
  g_testCaseResults : list CaseResult
}.

(** The three return sites of [execute]. *)
Inductive ExecuteResult :=
| BuildFailed (error : jsstring) (compilationTime : Z)
| GradedRun (g : Graded)
| HostFault (error : jsstring).

Definition result_success (r : ExecuteResult) : bool :=
  match r with GradedRun _ => true | _ => false end.

Definition result_status (r : ExecuteResult) : Status :=
  match r with
  | BuildFailed _ _ => CompilationError
  | GradedRun g => g_status g
  | HostFault _ => RuntimeError
  end.

(** What [prepareFiles] returns. *)
Record Prepared := {
  sourceFile : jsstring;
  executableFile : jsstring;
  compileCommand : option jsstring;
  runCommand : jsstring
}.

(** The fields of a submission document that the POST handler and
    [processSubmission] set; the timing fields kept by the pre-save hook
    are left out. *)
Record CompilationInfo := {
  ci_success : bool;
  ci_error : jsstring
}.

Record Submission := {
  sub_user : N;
  sub_problem : N;
  sub_code : jsstring;
  sub_language : jsstring;
  sub_status : Status;
  sub_attemptNumber : nat;
  sub_result : option Graded;
  sub_compilationInfo : option CompilationInfo
}.

Record Problem := {
  pr_id : N;
  pr_author : N;
  pr_isPublic : bool;
  pr_isApproved : bool;
  pr_allowedLanguages : list jsstring;
  pr_maxAttempts : Z;
  pr_timeLimit : Z;
  pr_memoryLimit : Z;
  pr_testCases : list TestCase;
  pr_total : Z;
  pr_successful : Z;
  pr_partial : Z
}.

(** The arguments of a started, not yet run, [processSubmission] call. *)
Record Task := {
  t_submissionId : N;
  t_problem : Problem;
  t_code : jsstring;
  t_language : jsstring
}.

(** ** The world and the host *)

(** What the executor touches: the disk, the shell commands run so far,
    and the count of host operations. *)
Record World := {
  disk : gmap jsstring Node;
  exec_log : list jsstring;
  ticks : nat
}.

(** The server: the executor's world, the two document stores, the
    [processSubmission] calls started but not yet run, and the ids of
    those that ran. *)
Record Server := {
  world : World;
  store : gmap N Submission;
  problems : gmap N Problem;
  pending : list Task;
  ran : list N
}.

(** I/O operations whose failure the host decides. *)
Inductive IoOp :=
| OpEnsureDir (p : jsstring)
| OpWriteFile (p : jsstring)
| OpReadFile (p : jsstring)
| OpRemove (p : jsstring)
| OpFindSubmission (id : N)
| OpSaveSubmission (id : N)
| OpFindProblem (id : N)
| OpCountSubmissions
| OpSaveProblem (id : N).

(** Everything decided outside the program. The [nat] argument is the
    number of host operations performed so far, so that answers may
    change over time. *)
Record Host := {
  (* uuidv4() *)
  host_uuid : nat → jsstring;
  (* the _id given to a new document *)
  host_objectId : nat → N;
  (* Date.now() *)
  host_now : nat → Z;
  (* the error with which an I/O operation fails, if it does *)
  host_fault : nat → IoOp → option JsError;
  (* exec: command, cwd, timeout and disk to new disk and outcome *)
  host_exec : nat → jsstring → jsstring → Z →
              gmap jsstring Node → gmap jsstring Node * ExecOutcome;
  (* process.platform === 'win32' *)
  host_win32 : bool;
  (* path.sep *)
  host_sep : jsstring;
  (* the text of a / b inside a template literal *)
  host_quotient : Z → Z → jsstring;
  (* this.tempDir *)
  host_tempDir : jsstring
}.

(** ** The effect monad: state plus exceptions *)

Inductive Res (A : Type) :=
| Ok (a : A)
| Throw (e : JsError).
Arguments Ok {A} a.
Arguments Throw {A} e.

Definition Eff (S A : Type) : Type := S → Res A * S.

(** The executor's monad and the server's. *)
Abbreviation M := (Eff World).
Abbreviation SM := (Eff Server).

Definition ret {S A} (a : A) : Eff S A := λ w, (Ok a, w).

Definition bind {S A B} (m : Eff S A) (k : A → Eff S B) : Eff S B :=
  λ w, match m w with
       | (Ok a, w') => k a w'
       | (Throw e, w') => (Throw e, w')
       end.

Definition throw {S A} (e : JsError) : Eff S A := λ w, (Throw e, w).

(** [try { m } catch (e) { h e }] *)
Definition try_catch {S A} (m : Eff S A) (h : JsError → Eff S A) : Eff S A :=
  λ w, match m w with
       | (Ok a, w') => (Ok a, w')
       | (Throw e, w') => h e w'
       end.

(** [try { m } finally { f }]: [f] runs on both exits, and an exception
    of [f] replaces the pending completion. *)
Definition finally {S A} (m : Eff S A) (f : Eff S unit) : Eff S A :=
  λ w, match m w with
       | (r, w') =>
           match f w' with
           | (Ok _, w'') => (r, w'')
           | (Throw e, w'') => (Throw e, w'')
           end
       end.

Notation "'let*' x ':=' m 'in' k" := (bind m (λ x, k))
  (at level 10, x pattern, m at level 100, k at level 200).
Notation "m '>>' k" := (bind m (λ _, k))
  (at level 100, k at level 200, right associativity).

(** ** Host primitives *)

Section Primitives.

Variable H : Host.

Definition bump (w : World) : World :=
  {| disk := disk w; exec_log := exec_log w; ticks := S (ticks w) |}.

Definition set_disk (d : gmap jsstring Node) (w : World) : World :=
  {| disk := d; exec_log := exec_log w; ticks := ticks w |}.

Definition log_exec (cmd : jsstring) (w : World) : World :=
  {| disk := disk w; exec_log := exec_log w ++ [cmd]; ticks := ticks w |}.

(** An I/O operation: the host may make it fail, otherwise it acts on
    the world and yields a value. *)
Definition io {A} (op : IoOp) (act : World → Res A * World) : M A :=
  λ w, match host_fault H (ticks w) op with
       | Some e => (Throw e, bump w)
       | None => act (bump w)
       end.

(** [path.join(a, b)] for a plain segment [b]. *)
Definition path_join (a b : jsstring) : jsstring := a ++ host_sep H ++ b.

(** [q] is [p] or lies below it. *)
Definition under (p q : jsstring) : bool :=
  bool_decide (q = p) || startsWith (p ++ host_sep H) q.

(** [fs.ensureDir(p)] *)
Definition ensureDir (p : jsstring) : M unit :=
  io (OpEnsureDir p)
     (λ w, (Ok (), match disk w !! p with
                   | Some _ => w
                   | None => set_disk (<[p := Dir]> (disk w)) w
                   end)).

(** [fs.writeFile(p, content)] *)
Definition writeFile (p content : jsstring) : M unit :=
  io (OpWriteFile p) (λ w, (Ok (), set_disk (<[p := File content]> (disk w)) w)).

(** [fs.readFile(p, 'utf8')] *)
Definition readFile (p : jsstring) : M jsstring :=
  io (OpReadFile p)
     (λ w, match disk w !! p with
           | Some (File content) => (Ok content, w)
           | Some Dir =>
               (Throw {| err_message := lit "EISDIR: illegal operation on a directory";
                         err_signal := None;
                         err_code := CodeString (lit "EISDIR");
                         err_stderr := None |}, w)
           | None =>
               (Throw {| err_message := lit "ENOENT: no such file or directory";
                         err_signal := None;
                         err_code := CodeString (lit "ENOENT");
                         err_stderr := None |}, w)
           end).

(** [fs.remove(p)]: removes [p] with everything below it; removing a
    missing path is not an error. *)
Definition remove (p : jsstring) : M unit :=
  io (OpRemove p)
     (λ w, (Ok (), set_disk (filter (λ kv, under p kv.1 = false) (disk w)) w)).

(** [execAsync(command, {cwd, timeout})]: the process may change the disk
    in any way; the command is logged. *)
Definition execAsync (command cwd : jsstring) (timeout : Z)
  : M (jsstring * jsstring) :=
  λ w, let '(d, out) := host_exec H (ticks w) command cwd timeout (disk w) in
       let w' := bump (log_exec command (set_disk d w)) in
       match out with
       | Resolved stdout stderr => (Ok (stdout, stderr), w')
       | Rejected e => (Throw e, w')
       end.

(** [Date.now()] *)
Definition now : M Z := λ w, (Ok (host_now H (ticks w)), bump w).

(** [uuidv4()] *)
Definition uuidv4 : M jsstring := λ w, (Ok (host_uuid H (ticks w)), bump w).

End Primitives.

(** ** [CodeExecutor] *)

Section CodeExecutor.

Variable H : Host.

(** [this.timeLimit] and [this.memoryLimit] set by the constructor. *)
Definition default_timeLimit : Z := 5000.
Definition default_memoryLimit : Z := 256 * 1024 * 1024.

(** [n || d] for an optional number: [null], [undefined] and [0] are
    falsy. *)
Definition num_or (n : option Z) (d : Z) : Z :=
  match n with
  | Some v => if (v =? 0)%Z then d else v
  | None => d
  end.

(** The text of a test-case index inside a file name. *)
Definition show_index (i : nat) : jsstring := lit (pretty (N.of_nat i)).

(** The assignments made by the [switch] of [prepareFiles]; [None] is
    the [default] branch. *)
Definition prepareFiles_switch (workDir language : jsstring) : option Prepared :=
  if bool_decide (language = lit "cpp") then
    let sourceFile := path_join H workDir (lit "solution.cpp") in
    let executableFile := path_join H workDir (lit "solution") in
    Some {| sourceFile := sourceFile;
            executableFile := executableFile;
            compileCommand :=
              Some (lit "g++ -std=c++17 -O2 -Wall " ++ sourceFile
                      ++ lit " -o " ++ executableFile);
            runCommand := executableFile |}
  else if bool_decide (language = lit "python") then
    let sourceFile := path_join H workDir (lit "solution.py") in
    Some {| sourceFile := sourceFile;
            executableFile := sourceFile;
            compileCommand := None;
            runCommand := lit "python3 " ++ sourceFile |}
  else if bool_decide (language = lit "java") then
    let sourceFile := path_join H workDir (lit "Solution.java") in
    let executableFile := path_join H workDir (lit "Solution") in
    Some {| sourceFile := sourceFile;
            executableFile := executableFile;
            compileCommand := Some (lit "javac " ++ sourceFile);
            runCommand := lit "java -cp " ++ workDir ++ lit " Solution" |}
  else if bool_decide (language = lit "javascript") then
    let sourceFile := path_join H workDir (lit "solution.js") in
    Some {| sourceFile := sourceFile;
            executableFile := sourceFile;
            compileCommand := None;
            runCommand := lit "node " ++ sourceFile |}
  else None.

(** Every case of the switch writes the source file; the default case
    throws. *)
Definition prepareFiles (workDir code language : jsstring) : M Prepared :=
  match prepareFiles_switch workDir language with
  | Some prepared =>
      writeFile H (sourceFile prepared) code >>
      ret prepared
  | None => throw (new_Error (lit "Unsupported language: " ++ language))
  end.

(** [error.stderr || error.message] *)
Definition stderr_or_message (e : JsError) : jsstring :=
  match err_stderr e with
  | Some s => or_else s (err_message e)
  | None => err_message e
  end.

Definition compile (workDir compileCommand : jsstring) : M CompileResult :=
  try_catch
    (let* startTime := now H in
     let* (_, stderr) := execAsync H compileCommand workDir 10000 in
     let* endTime := now H in
     let compilationTime := (endTime - startTime)%Z in
     if truthy stderr then ret (CompileFail stderr compilationTime)
     else ret (CompileOk compilationTime))
    (λ error, ret (CompileFail (stderr_or_message error) 0)).

Definition prepareExecutionCommand
    (runCommand inputFile outputFile errorFile : jsstring)
    (timeLimit memoryLimit : Z) : jsstring :=
  let redirected :=
    runCommand ++ lit " < " ++ inputFile ++ lit " > " ++ outputFile
      ++ lit " 2> " ++ errorFile in
  if host_win32 H then redirected
  else
    lit "timeout " ++ host_quotient H timeLimit 1000 ++ lit "s bash -c "
      ++ [34] ++ lit "ulimit -v " ++ host_quotient H memoryLimit 1024
      ++ lit "; " ++ redirected ++ [34].

(** The message chosen by the [catch] block of [runTestCase]. *)
Definition errorMessage_of (error : JsError) : jsstring :=
  if bool_decide (err_signal error = Some (lit "SIGTERM")) ||
     bool_decide (err_signal error = Some (lit "SIGKILL"))
  then lit "Time limit exceeded"
  else if bool_decide (err_code error = CodeNumber 134)
  then lit "Memory limit exceeded"
  else match err_stderr error with
       | Some (c :: s) => lit "Runtime error: " ++ c :: s
       | _ => lit "Runtime error"
       end.

Definition runTestCase
    (workDir executableFile runCommand input : jsstring)
    (timeLimit memoryLimit : Z) (testCaseIndex : nat) : M RunResult :=
  let inputFile :=
    path_join H workDir (lit "input_" ++ show_index testCaseIndex ++ lit ".txt") in
  let outputFile :=
    path_join H workDir (lit "output_" ++ show_index testCaseIndex ++ lit ".txt") in
  let errorFile :=
    path_join H workDir (lit "error_" ++ show_index testCaseIndex ++ lit ".txt") in
  finally
    (try_catch
       (writeFile H inputFile input >>
        let command :=
          prepareExecutionCommand runCommand inputFile outputFile errorFile
                                  timeLimit memoryLimit in
        let* startTime := now H in
        let* (stdout, stderr) := execAsync H command workDir (timeLimit + 1000) in
        let* endTime := now H in
        let executionTime := (endTime - startTime)%Z in
        let* output := readFile H outputFile in
        let* errorOutput := try_catch (readFile H errorFile) (λ _, ret []) in
        let normalizedOutput := normalizeOutput output in
        let normalizedExpectedOutput := normalizeOutput (or_else stdout []) in
        let passed := bool_decide (normalizedOutput = normalizedExpectedOutput) in
        ret {| run_passed := passed;
               run_time := executionTime;
               run_memory := 0;
               run_output := normalizedOutput;
               run_error := or_else errorOutput stderr |})
       (λ error,
          ret {| run_passed := false;
                 run_time := timeLimit;
                 run_memory := 0;
                 run_output := [];
                 run_error := errorMessage_of error |}))
    (try_catch
       (remove H inputFile >> remove H outputFile >> remove H errorFile)
       (λ _, ret ())).

(** [testCase.points || 10] *)
Definition points_or_default (testCase : TestCase) : Z :=
  num_or (tc_points testCase) 10.

(** The local variables of [execute] that the loop updates. *)
Record Tally := {
  results : list CaseResult;
  totalScore : Z;
  maxScore : Z;
  totalTime : Z;
  maxMemory : Z
}.

Definition empty_tally : Tally :=
  {| results := []; totalScore := 0; maxScore := 0;
     totalTime := 0; maxMemory := 0 |}.

(** One iteration of the loop body after [runTestCase] returned. *)
Definition record_case (i : nat) (testCase : TestCase) (result : RunResult)
    (t : Tally) : Tally :=
  let testCaseScore :=
    if run_passed result then points_or_default testCase else 0%Z in
  {| results :=
       results t ++
       [{| testCaseId := match tc_id testCase with
                         | Some (c :: oid) => IdOfCase (c :: oid)
                         | _ => IdOfIndex i
                         end;
           passed := run_passed result;
           timeTaken := run_time result;
           memoryUsed := run_memory result;
           input := tc_input testCase;
           expectedOutput := tc_output testCase;
           actualOutput := run_output result;
           error := run_error result;
           score := testCaseScore |}];
     totalScore := (totalScore t + testCaseScore)%Z;
     maxScore := (maxScore t + points_or_default testCase)%Z;
     totalTime := Z.max (totalTime t) (run_time result);
     maxMemory := Z.max (maxMemory t) (run_memory result) |}.

(** [for (let i = ...; i < testCases.length; i++)] from index [i] on. *)
Fixpoint run_cases (workDir executableFile runCommand : jsstring)
    (timeLimit memoryLimit : Z) (i : nat) (testCases : list TestCase)
    (t : Tally) : M Tally :=
  match testCases with
  | [] => ret t
  | testCase :: rest =>
      let* result :=
        runTestCase workDir executableFile runCommand (tc_input testCase)
                    timeLimit memoryLimit i in
      run_cases workDir executableFile runCommand timeLimit memoryLimit
                (S i) rest (record_case i testCase result t)
  end.

(** The score-based status ([let status = 'accepted'; if ... else if ...]). *)
Definition score_status (totalScore maxScore : Z) : Status :=
  if (totalScore =? 0)%Z then WrongAnswer
  else if (totalScore <? maxScore)%Z then PartialCorrect
  else Accepted.

(** The [if / else if] chain on one result's error text. *)
Definition classify_error (error : jsstring) : option Status :=
  if truthy error then
    if includes error (lit "Time limit exceeded") then Some TimeLimitExceeded
    else if includes error (lit "Memory limit exceeded") then Some MemoryLimitExceeded
    else if includes error (lit "Runtime error") then Some RuntimeError
    else None
  else None.

(** [for (const result of results) { ...; break; }]: the first result
    whose error text is classified replaces [status]. *)
Fixpoint scan_errors (status : Status) (results : list CaseResult) : Status :=
  match results with
  | [] => status
  | result :: rest =>
      match classify_error (error result) with
      | Some s => s
      | None => scan_errors status rest
      end
  end.

(** Lines 219-240: the overall status. *)
Definition determine_status (totalScore maxScore : Z)
    (results : list CaseResult) : Status :=
  scan_errors (score_status totalScore maxScore) results.

Definition graded_of (testCases : list TestCase) (t : Tally) : Graded :=
  {| g_status := determine_status (totalScore t) (maxScore t) (results t);
     g_score := totalScore t;
     g_maxScore := maxScore t;
     g_timeTaken := totalTime t;
     g_memoryUsed := maxMemory t;
     g_testCasesPassed := length (filter (λ r, passed r = true) (results t));
     g_totalTestCases := length testCases;
     g_testCaseResults := results t |}.

(** The body of the [try] block of [execute]. *)
Definition execute_body (workDir code language : jsstring)
    (testCases : list TestCase) (timeLimit memoryLimit : option Z)
  : M ExecuteResult :=
  ensureDir H workDir >>
  let execTimeLimit := num_or timeLimit default_timeLimit in
  let execMemoryLimit := num_or memoryLimit default_memoryLimit in
  let* prepared := prepareFiles workDir code language in
  let* failed :=
    match compileCommand prepared with
    | Some command =>
        let* compileResult := compile workDir command in
        match compileResult with
        | CompileFail error time => ret (Some (BuildFailed error time))
        | CompileOk _ => ret None
        end
    | None => ret None
    end in
  match failed with
  | Some result => ret result
  | None =>
      let* t :=
        run_cases workDir (executableFile prepared) (runCommand prepared)
                  execTimeLimit execMemoryLimit 0 testCases empty_tally in
      ret (GradedRun (graded_of testCases t))
  end.

Definition execute (submissionId : N) (code language : jsstring)
    (testCases : list TestCase) (timeLimit memoryLimit : option Z)
  : M ExecuteResult :=
  let* executionId := uuidv4 H in
  let workDir := path_join H (host_tempDir H) executionId in
  finally
    (try_catch
       (execute_body workDir code language testCases timeLimit memoryLimit)
       (λ error, ret (HostFault (err_message error))))
    (try_catch (remove H workDir) (λ _, ret ())).

End CodeExecutor.

(** The diagnostic of a build, when the outcome of the compile command
    counts as a failed build: text on stderr, or a rejected [exec]. *)
Definition build_failure (out : ExecOutcome) : option jsstring :=
  match out with
  | Resolved _ [] => None
  | Resolved _ (c :: stderr) => Some (c :: stderr)
  | Rejected e =>
      Some match err_stderr e with
           | Some (c :: stderr) => c :: stderr
           | _ => err_message e
           end
  end.


(** ** The submission route *)

Section Submissions.

Variable H : Host.

Definition set_world (w : World) (s : Server) : Server :=
  {| world := w; store := store s; problems := problems s;
     pending := pending s; ran := ran s |}.

Definition set_store (st : gmap N Submission) (s : Server) : Server :=
  {| world := world s; store := st; problems := problems s;
     pending := pending s; ran := ran s |}.

Definition set_problems (ps : gmap N Problem) (s : Server) : Server :=
  {| world := world s; store := store s; problems := ps;
     pending := pending s; ran := ran s |}.

(** An executor action run by the server: it sees the world only. *)
Definition lift {A} (m : M A) : SM A :=
  λ s, let '(r, w) := m (world s) in (r, set_world w s).

(** A database operation: the host may make it fail. *)
Definition db {A} (op : IoOp) (act : Server → Res A * Server) : SM A :=
  λ s, match host_fault H (ticks (world s)) op with
       | Some e => (Throw e, set_world (bump (world s)) s)
       | None => act (set_world (bump (world s)) s)
       end.

(** [Submission.findById(id)] *)
Definition findSubmission (id : N) : SM (option Submission) :=
  db (OpFindSubmission id) (λ s, (Ok (store s !! id), s)).

(** [submission.save()] of a loaded document. *)
Definition saveSubmission (id : N) (doc : Submission) : SM unit :=
  db (OpSaveSubmission id) (λ s, (Ok (), set_store (<[id := doc]> (store s)) s)).

(** [submission.save()] of a new document: an insert, refused by the
    unique index on [_id] when the id is taken. *)
Definition insertSubmission (id : N) (doc : Submission) : SM unit :=
  db (OpSaveSubmission id)
     (λ s, match store s !! id with
           | Some _ => (Throw (new_Error (lit "E11000 duplicate key error")), s)
           | None => (Ok (), set_store (<[id := doc]> (store s)) s)
           end).

(** [Problem.findById(id)] *)
Definition findProblem (id : N) : SM (option Problem) :=
  db (OpFindProblem id) (λ s, (Ok (problems s !! id), s)).

(** [Submission.countDocuments({user, problem})] *)
Definition countSubmissions (user problem : N) : SM Z :=
  db OpCountSubmissions
     (λ s, (Ok (Z.of_nat (size (filter
                (λ kv, sub_user kv.2 = user ∧ sub_problem kv.2 = problem)
                (store s)))), s)).

(** [new Submission({...})] draws a fresh [_id]. *)
Definition newObjectId : SM N :=
  λ s, (Ok (host_objectId H (ticks (world s))), set_world (bump (world s)) s).

(** [problem.updateSubmissionStats(isSuccessful, isPartial)] *)
Definition updateSubmissionStats (problem : Problem)
    (isSuccessful isPartial : bool) : SM unit :=
  let updated :=
    {| pr_id := pr_id problem; pr_author := pr_author problem;
       pr_isPublic := pr_isPublic problem;
       pr_isApproved := pr_isApproved problem;
       pr_allowedLanguages := pr_allowedLanguages problem;
       pr_maxAttempts := pr_maxAttempts problem;
       pr_timeLimit := pr_timeLimit problem;
       pr_memoryLimit := pr_memoryLimit problem;
       pr_testCases := pr_testCases problem;
       pr_total := (pr_total problem + 1)%Z;
       pr_successful :=
         if isSuccessful then (pr_successful problem + 1)%Z
         else pr_successful problem;
       pr_partial :=
         if isSuccessful then pr_partial problem
         else if isPartial then (pr_partial problem + 1)%Z
         else pr_partial problem |} in
  db (OpSaveProblem (pr_id problem))
     (λ s, (Ok (), set_problems (<[pr_id problem := updated]> (problems s)) s)).

(** [updateUserStats]: the user store is outside the modelled state, and
    the function catches every exception it raises. *)
Definition updateUserStats (userId : N) (status : Status)
    (isSuccessful : bool) : SM unit :=
  λ s, (Ok (), set_world (bump (world s)) s).

Definition with_status (st : Status) (doc : Submission) : Submission :=
  {| sub_user := sub_user doc; sub_problem := sub_problem doc;
     sub_code := sub_code doc; sub_language := sub_language doc;
     sub_status := st; sub_attemptNumber := sub_attemptNumber doc;
     sub_result := sub_result doc;
     sub_compilationInfo := sub_compilationInfo doc |}.

Definition with_result (g : Graded) (doc : Submission) : Submission :=
  {| sub_user := sub_user doc; sub_problem := sub_problem doc;
     sub_code := sub_code doc; sub_language := sub_language doc;
     sub_status := sub_status doc;
     sub_attemptNumber := sub_attemptNumber doc;
     sub_result := Some g;
     sub_compilationInfo := sub_compilationInfo doc |}.

Definition with_compilationInfo (error : jsstring) (doc : Submission)
  : Submission :=
  {| sub_user := sub_user doc; sub_problem := sub_problem doc;
     sub_code := sub_code doc; sub_language := sub_language doc;
     sub_status := sub_status doc;
     sub_attemptNumber := sub_attemptNumber doc;
     sub_result := sub_result doc;
     sub_compilationInfo := Some {| ci_success := false; ci_error := error |} |}.

(** [if (result.success) {...} else {...}] *)
Definition apply_result (result : ExecuteResult) (doc : Submission)
  : Submission :=
  match result with
  | GradedRun g => with_result g (with_status (g_status g) doc)
  | BuildFailed error _ =>
      with_compilationInfo error (with_status CompilationError doc)
  | HostFault error =>
      with_compilationInfo error (with_status RuntimeError doc)
  end.

Definition processSubmission (submissionId : N) (problem : Problem)
    (code language : jsstring) : SM unit :=
  try_catch
    (let* found := findSubmission submissionId in
     match found with
     | None => ret ()
     | Some submission =>
         let submission := with_status Compiling submission in
         saveSubmission submissionId submission >>
         let* result :=
           lift (execute H submissionId code language (pr_testCases problem)
                         (Some (pr_timeLimit problem * 1000)%Z)
                         (Some (pr_memoryLimit problem * 1024 * 1024)%Z)) in
         let submission := apply_result result submission in
         saveSubmission submissionId submission >>
         updateSubmissionStats problem
           (bool_decide (sub_status submission = Accepted))
           (bool_decide (sub_status submission = PartialCorrect)) >>
         updateUserStats (sub_user submission) (sub_status submission)
           (bool_decide (sub_status submission = Accepted))
     end)
    (λ error,
       try_catch
         (let* found := findSubmission submissionId in
          match found with
          | Some submission =>
              saveSubmission submissionId
                (with_compilationInfo (err_message error)
                   (with_status RuntimeError submission))
          | None => ret ()
          end)
         (λ _, ret ())).

(** The request as the handler sees it. [req_valid] is
    [validationResult(req).isEmpty()]: [problem] is a Mongo id, [code]
    is not empty and within 100000 characters, [language] is one of the
    four tags. *)
Record Request := {
  req_valid : bool;
  req_user : N;
  req_isAdmin : bool;
  req_problem : N;
  req_code : jsstring;
  req_language : jsstring
}.

Inductive Response :=
| ValidationFailed
| ProblemNotFound
| AccessDenied
| LanguageNotAllowed
| MaximumAttempts
| Created (submissionId : N) (status : Status)
| ServerError.

(** [processSubmission(...)] called without [await]: the call is started
    and runs later. *)
Definition start (t : Task) : SM unit :=
  λ s, (Ok (), {| world := world s; store := store s; problems := problems s;
                  pending := pending s ++ [t]; ran := ran s |}).

(** [router.post('/')] *)
Definition post_submission (req : Request) : SM Response :=
  try_catch
    (if negb (req_valid req) then ret ValidationFailed
     else
       let problemId := req_problem req in
       let code := req_code req in
       let language := req_language req in
       let userId := req_user req in
       let* found := findProblem problemId in
       match found with
       | None => ret ProblemNotFound
       | Some problem =>
           if (negb (pr_isPublic problem) || negb (pr_isApproved problem)) &&
              (negb (bool_decide (pr_author problem = userId)) &&
               negb (req_isAdmin req))
           then ret AccessDenied
           else if negb (bool_decide (language ∈ pr_allowedLanguages problem))
           then ret LanguageNotAllowed
           else
             let* exhausted :=
               if (0 <? pr_maxAttempts problem)%Z then
                 let* submissionCount := countSubmissions userId problemId in
                 ret (pr_maxAttempts problem <=? submissionCount)%Z
               else ret false in
             if exhausted then ret MaximumAttempts
             else
               let* count := countSubmissions userId problemId in
               let attemptNumber := Z.to_nat (count + 1) in
               let* id := newObjectId in
               let submission :=
                 {| sub_user := userId; sub_problem := problemId;
                    sub_code := code; sub_language := language;
                    sub_status := Pending;
                    sub_attemptNumber := attemptNumber;
                    sub_result := None;
                    sub_compilationInfo := None |} in
               insertSubmission id submission >>
               start {| t_submissionId := id; t_problem := problem;
                        t_code := code; t_language := language |} >>
               ret (Created id Pending)
       end)
    (λ _, ret ServerError).

(** What the server does next: handle a POST, or run the [k]-th started
    call of [processSubmission] to its end. *)
Inductive Event :=
| Post (req : Request)
| RunTask (k : nat).

Definition run_task (k : nat) : SM unit :=
  λ s, match pending s !! k with
       | None => (Ok (), s)
       | Some t =>
           processSubmission (t_submissionId t) (t_problem t)
                             (t_code t) (t_language t)
             {| world := world s; store := store s; problems := problems s;
                pending := delete k (pending s);
                ran := ran s ++ [t_submissionId t] |}
       end.

Definition serve_event (e : Event) (s : Server) : Server :=
  match e with
  | Post req => (post_submission req s).2
  | RunTask k => (run_task k s).2
  end.

Definition serve (es : list Event) (s : Server) : Server :=
  foldl (λ s e, serve_event e s) s es.


End Submissions.

Definition empty_world : World :=
  {| disk := ∅; exec_log := []; ticks := 0 |}.

Definition initial_server (ps : gmap N Problem) : Server :=
  {| world := empty_world; store := ∅; problems := ps;
     pending := []; ran := [] |}.

(** ** Concrete hosts and inputs used in examples *)

Module Examples.

(** A failed child process, as [exec] reports it. *)
Definition exec_error (signal : option jsstring) (code : ErrCode)
    (stderr : jsstring) : JsError :=
  {| err_message := lit "Command failed"; err_signal := signal;
     err_code := code; err_stderr := Some stderr |}.

(** A host without I/O faults whose processes behave as [exec] says. *)
Definition host_with
    (exec : nat → jsstring → jsstring → Z →
            gmap jsstring Node → gmap jsstring Node * ExecOutcome) : Host :=
  {| host_uuid := λ _, lit "0001";
     host_objectId := λ t, N.of_nat t;
     host_now := λ t, Z.of_nat t;
     host_fault := λ _ _, None;
     host_exec := exec;
     host_win32 := false;
     host_sep := lit "/";
     host_quotient := λ a b, lit (pretty (a / b)%Z);
     host_tempDir := lit "/tmp" |}.

(** The submitted program copies its input to its output; the shell
    redirects that output into the output file, so the captured stdout
    is empty. A compiler run succeeds silently. *)
Definition echo_exec (t : nat) (cmd cwd : jsstring) (timeout : Z)
    (d : gmap jsstring Node) : gmap jsstring Node * ExecOutcome :=
  if includes cmd (lit "input_0") then
    match d !! lit "/tmp/0001/input_0.txt" with
    | Some (File content) =>
        (<[lit "/tmp/0001/error_0.txt" := File []]>
           (<[lit "/tmp/0001/output_0.txt" := File content]> d),
         Resolved [] [])
    | _ => (d, Rejected (exec_error None (CodeNumber 1) []))
    end
  else (d, Resolved [] []).

(** The submitted program prints nothing at all. *)
Definition silent_exec (t : nat) (cmd cwd : jsstring) (timeout : Z)
    (d : gmap jsstring Node) : gmap jsstring Node * ExecOutcome :=
  if includes cmd (lit "input_0") then
    (<[lit "/tmp/0001/error_0.txt" := File []]>
       (<[lit "/tmp/0001/output_0.txt" := File []]> d),
     Resolved [] [])
  else (d, Resolved [] []).

(** The run on the first test case exits with status 1, the run on the
    second is killed after the time limit. *)
Definition crash_then_timeout_exec (t : nat) (cmd cwd : jsstring) (timeout : Z)
    (d : gmap jsstring Node) : gmap jsstring Node * ExecOutcome :=
  if includes cmd (lit "input_0") then
    (d, Rejected (exec_error None (CodeNumber 1) []))
  else if includes cmd (lit "input_1") then
    (d, Rejected (exec_error (Some (lit "SIGTERM")) CodeUndefined []))
  else (d, Resolved [] []).

(** The compiler exits with status 0 after printing a warning. *)
Definition warning_exec (t : nat) (cmd cwd : jsstring) (timeout : Z)
    (d : gmap jsstring Node) : gmap jsstring Node * ExecOutcome :=
  if startsWith (lit "g++") cmd then
    (d, Resolved [] (lit "warning: unused variable"))
  else (d, Resolved [] []).

(** The compiler exits with status 1 and a diagnostic. *)
Definition broken_build_exec (t : nat) (cmd cwd : jsstring) (timeout : Z)
    (d : gmap jsstring Node) : gmap jsstring Node * ExecOutcome :=
  if startsWith (lit "g++") cmd then
    (d, Rejected (exec_error None (CodeNumber 1) (lit "error: expected ;")))
  else (d, Resolved [] []).

Definition case_of (input output : jsstring) (points : option Z) : TestCase :=
  {| tc_id := None; tc_input := input; tc_output := output;
     tc_isHidden := false; tc_points := points |}.

Definition crashed_result : CaseResult :=
  {| testCaseId := IdOfIndex 0; passed := false; timeTaken := 1000;
     memoryUsed := 0; input := lit "1"; expectedOutput := lit "1";
     actualOutput := []; error := lit "Runtime error"; score := 0 |}.

Definition passed_result : CaseResult :=
  {| testCaseId := IdOfIndex 2; passed := true; timeTaken := 3;
     memoryUsed := 0; input := lit "3"; expectedOutput := [];
     actualOutput := []; error := []; score := 10 |}.

Definition timed_out_result : CaseResult :=
  {| testCaseId := IdOfIndex 1; passed := false; timeTaken := 1000;
     memoryUsed := 0; input := lit "2"; expectedOutput := lit "2";
     actualOutput := []; error := lit "Time limit exceeded"; score := 0 |}.

End Examples.


(** The part of the server state that the POST handler and
    [processSubmission] may only extend. *)
Definition grows (s s' : Server) : Prop :=
  pending s' = pending s ∧ ran s' = ran s ∧
  ∀ id, is_Some (store s !! id) → is_Some (store s' !! id).

(** An action that only extends the server state. *)
Definition growing {A} (m : SM A) : Prop := ∀ s, grows s (m s).2.

Module ServerExamples.

Definition problem_1 : Problem :=
  {| pr_id := 1; pr_author := 2; pr_isPublic := true; pr_isApproved := true;
     pr_allowedLanguages := [lit "cpp"; lit "python"];
     pr_maxAttempts := 0; pr_timeLimit := 1; pr_memoryLimit := 256;
     pr_testCases := [Examples.case_of (lit "1") (lit "1") (Some 10%Z)];
     pr_total := 0; pr_successful := 0; pr_partial := 0 |}.

(** Submission 5 is being graded: its status is [compiling]. *)
Definition in_flight : Server :=
  {| world := empty_world;
     store := {[ 5 := {| sub_user := 3; sub_problem := 1;
                         sub_code := lit "print(input())";
                         sub_language := lit "python";
                         sub_status := Compiling;
                         sub_attemptNumber := 1;
                         sub_result := None;
                         sub_compilationInfo := None |} ]};
     problems := {[ 1 := problem_1 ]};
     pending := []; ran := [5] |}.

Definition request_1 : Request :=
  {| req_valid := true; req_user := 3; req_isAdmin := false;
     req_problem := 1; req_code := lit "print(input())";
     req_language := lit "python" |}.

End ServerExamples.

(** ** Auxiliary notions for the further properties *)

(** The lines that [normalizeOutput] keeps, before they are joined. *)
Definition kept_lines (output : jsstring) : list jsstring :=
  filter (λ line, (0 < length line)%nat) (trim <$> split_lines output).

(** A string made of whitespace only. *)
Definition all_whitespace (s : jsstring) : Prop :=
  Forall (λ c, is_whitespace c = true) s.

(** The sum of the [score] fields of a result list. *)
Definition sum_scores (rs : list CaseResult) : Z :=
  foldr (λ r acc, (score r + acc)%Z) 0%Z rs.

(** The sum of [testCase.points || 10] over a test-case list. *)
Definition sum_points (testCases : list TestCase) : Z :=
  foldr (λ testCase acc, (points_or_default testCase + acc)%Z) 0%Z testCases.

(** The result [r] is the entry pushed for [testCase]: it echoes the
    test case's input and expected output, scores the case's points when
    passed and 0 otherwise, and reports no memory. *)
Definition recorded (testCase : TestCase) (r : CaseResult) : Prop :=
  input r = tc_input testCase ∧
  expectedOutput r = tc_output testCase ∧
  score r = (if passed r then points_or_default testCase else 0)%Z ∧
  memoryUsed r = 0%Z.


(** The statuses set by the scan over the results' error texts. *)
Definition failure_statuses : list Status :=
  [TimeLimitExceeded; MemoryLimitExceeded; RuntimeError].

(** The statuses [execute] can report. *)
Definition final_statuses : list Status :=
  [Accepted; WrongAnswer; PartialCorrect; TimeLimitExceeded;
   MemoryLimitExceeded; RuntimeError; CompilationError].

(** The second world ran at most [k] more shell commands than the first,
    and none of the first world's log was lost. *)
Definition ran_at_most (k : nat) (w w1 : World) : Prop :=
  ∃ cmds, exec_log w1 = exec_log w ++ cmds ∧ (length cmds ≤ k)%nat.

(** [createDirectories] of the server start-up: each directory is
    created inside its own [try], an error is logged and the loop goes
    on. *)
Definition dirs : list jsstring :=
  [lit "./uploads"; lit "./code_execution"; lit "./code_execution/temp";
   lit "./code_execution/submissions"].

Definition createDirectories (H : Host) : M unit :=
  foldr (λ dir rest, try_catch (ensureDir H dir) (λ _, ret ()) >> rest)
        (ret ()) dirs.

(** [Submission.countDocuments({user, problem})] as a number. *)
Definition attempts (user problem : N) (st : gmap N Submission) : nat :=
  size (filter (λ kv, sub_user kv.2 = user ∧ sub_problem kv.2 = problem) st).

(** Two documents of the same submission: same user, problem, code,
    language and attempt number. *)
Definition same_submission (doc doc1 : Submission) : Prop :=
  sub_user doc1 = sub_user doc ∧ sub_problem doc1 = sub_problem doc ∧
  sub_code doc1 = sub_code doc ∧ sub_language doc1 = sub_language doc ∧
  sub_attemptNumber doc1 = sub_attemptNumber doc.

(** A host whose problem store refuses every [save], and is otherwise
    like the echo host. *)
Module MoreExamples.

Definition statistics_error : JsError :=
  new_Error (lit "problem store unavailable").

Definition failing_statistics_host : Host :=
  {| host_uuid := λ _, lit "0001";
     host_objectId := λ t, N.of_nat t;
     host_now := λ t, Z.of_nat t;
     host_fault := λ _ op,
       match op with
       | OpSaveProblem _ => Some statistics_error
       | _ => None
       end;
     host_exec := Examples.echo_exec;
     host_win32 := false;
     host_sep := lit "/";
     host_quotient := λ a b, lit (pretty (a / b)%Z);
     host_tempDir := lit "/tmp" |}.

End MoreExamples.

(** * Properties *)

(** ** Trimming and line handling *)

Section TrimFacts.

Lemma trimStart_clean s : trimStart s = [] ∨ starts_clean (trimStart s).
Proof.
  induction s as [|c r IH]; [by left|].
  simpl. destruct (is_whitespace c) eqn:Hc; [done|].
  right. by exists c, r.
Qed.

Lemma trimStart_fixed s : starts_clean s → trimStart s = s.
Proof. intros (a & r & -> & Ha). simpl. by rewrite Ha. Qed.

Lemma trimEnd_clean s : trimEnd s = [] ∨ ends_clean (trimEnd s).
Proof.
  induction s as [|c r IH]; [by left|].
  simpl. destruct (trimEnd r) as [|b r'] eqn:Hr.
  - destruct (is_whitespace c) eqn:Hc; [by left|].
    right. by exists [], c.
  - right. destruct IH as [IH|(u & z & Hu & Hz)]; [done|].
    exists (c :: u), z. by rewrite Hu.
Qed.

Lemma trimEnd_fixed s : ends_clean s → trimEnd s = s.
Proof.
  intros (r & z & -> & Hz).
  induction r as [|a r IH]; simpl.
  - by rewrite Hz.
  - rewrite IH. by destruct r.
Qed.

Lemma trimStart_app a b :
  trimStart (a ++ b) =
    match trimStart a with
    | [] => trimStart b
    | t => t ++ b
    end.
Proof.
  induction a as [|c a IH]; simpl; [done|].
  by destruct (is_whitespace c).
Qed.

(** [trimEnd] strips from the right what [trimStart] strips from the
    left. *)
Lemma trimEnd_rev s : trimEnd s = rev (trimStart (rev s)).
Proof.
  induction s as [|c r IH]; [done|].
  simpl. rewrite IH, trimStart_app.
  destruct (trimStart (rev r)) as [|x t]; simpl.
  - by destruct (is_whitespace c).
  - rewrite rev_app_distr. simpl.
    by destruct (rev t ++ [x]) eqn:E; [destruct (rev t)|].
Qed.

Lemma trimEnd_keeps_head s :
  starts_clean s → starts_clean (trimEnd s).
Proof.
  intros (a & r & -> & Ha). simpl.
  destruct (trimEnd r) as [|b r'].
  - rewrite Ha. by exists a, [].
  - by exists a, (b :: r').
Qed.

Lemma trim_clean s : trim s = [] ∨ (starts_clean (trim s) ∧ ends_clean (trim s)).
Proof.
  unfold trim.
  destruct (trimStart_clean s) as [->|Hs]; [by left|].
  destruct (trimEnd_clean (trimStart s)) as [He|He]; [by left|].
  right. split; [by apply trimEnd_keeps_head | done].
Qed.

Lemma trim_fixed s : starts_clean s → ends_clean s → trim s = s.
Proof.
  intros Hs He. unfold trim. rewrite (trimStart_fixed _ Hs).
  by apply trimEnd_fixed.
Qed.

Lemma split_lines_nonempty s : split_lines s ≠ [].
Proof.
  destruct s as [|c r]; simpl; [done|].
  destruct (c =? LF); [done|]. by destruct (split_lines r).
Qed.

Lemma split_lines_snoc_LF s : split_lines (s ++ [LF]) = split_lines s ++ [[]].
Proof.
  induction s as [|c r IH]; simpl; [done|].
  rewrite IH. destruct (c =? LF); [done|].
  pose proof (split_lines_nonempty r). by destruct (split_lines r).
Qed.

Lemma join_lines_starts l rest :
  starts_clean l → starts_clean (join_lines (l :: rest)).
Proof.
  intros (a & r & -> & Ha). simpl.
  destruct rest; [by exists a, r|].
  by eexists a, _.
Qed.

Lemma join_lines_ends ls :
  ls ≠ [] → Forall ends_clean ls → ends_clean (join_lines ls).
Proof.
  induction ls as [|l rest IH]; [done|].
  intros _ Hall. apply Forall_cons in Hall as [Hl Hrest].
  destruct rest as [|l' rest']; [done|].
  destruct IH as (r & z & Hr & Hz); [done|done|].
  change (join_lines (l :: l' :: rest'))
    with (l ++ LF :: join_lines (l' :: rest')).
  rewrite Hr. exists (l ++ LF :: r), z.
  split; [|done]. by rewrite <- app_assoc.
Qed.

Lemma kept_lines_clean s :
  Forall (λ l, starts_clean l ∧ ends_clean l)
         (filter (λ line, (0 < length line)%nat) (trim <$> split_lines s)).
Proof.
  apply Forall_forall. intros l Hl.
  apply list_elem_of_filter in Hl as [Hlen Hl].
  apply list_elem_of_fmap in Hl as (x & -> & _).
  destruct (trim_clean x) as [E|?]; [|done].
  rewrite E in Hlen. simpl in Hlen. lia.
Qed.

Lemma normalizeOutput_line_normalize s : normalizeOutput s = line_normalize s.
Proof.
  unfold normalizeOutput, line_normalize.
  pose proof (kept_lines_clean s) as Hall.
  destruct (filter _ _) as [|l rest] eqn:E; [done|].
  apply trim_fixed.
  - apply join_lines_starts. by apply Forall_cons in Hall as [[? _] _].
  - apply join_lines_ends; [done|].
    eapply Forall_impl; [exact Hall|]. by intros ? [_ ?].
Qed.

Lemma normalizeOutput_snoc_LF s : normalizeOutput (s ++ [LF]) = normalizeOutput s.
Proof.
  unfold normalizeOutput.
  rewrite split_lines_snoc_LF, fmap_app, filter_app. simpl.
  rewrite filter_cons_False, filter_nil, app_nil_r; [done|].
  unfold trim. simpl. lia.
Qed.

Lemma normalizeOutput_trailing_newlines s k :
  normalizeOutput (s ++ replicate k LF) = normalizeOutput s.
Proof.
  revert s. induction k as [|k IH]; intros s; simpl.
  - by rewrite app_nil_r.
  - rewrite (cons_middle LF s), app_assoc, IH.
    apply normalizeOutput_snoc_LF.
Qed.

End TrimFacts.

(** ** Reasoning about effects *)

Section EffFacts.

Context {S : Type}.

Lemma try_catch_Ok {A} (m : Eff S A) h w a w1 :
  m w = (Ok a, w1) → try_catch m h w = (Ok a, w1).
Proof. unfold try_catch. by intros ->. Qed.


End EffFacts.

Section ExecutorFacts.

Variable H : Host.

Lemma io_no_fault {A} op (act : World → Res A * World) w :
  host_fault H (ticks w) op = None → io H op act w = act (bump w).
Proof. unfold io. by intros ->. Qed.

(** The cleanup of [execute]'s [finally] block. *)
Lemma cleanup_spec workDir w :
  ∃ w1, try_catch (remove H workDir) (λ _, ret ()) w = (Ok (), w1) ∧
        exec_log w1 = exec_log w ∧
        (host_fault H (ticks w) (OpRemove workDir) = None →
         ∀ q, under H workDir q = true → disk w1 !! q = None).
Proof.
  unfold try_catch, remove, io, ret.
  destruct (host_fault H (ticks w) (OpRemove workDir)) as [e|] eqn:Hf; simpl.
  - eexists. by split.
  - eexists. split; [done|]. split; [done|].
    intros _ q Hq. apply map_lookup_filter_None. right.
    intros x _. simpl. by rewrite Hq.
Qed.


(** [execute] never throws: it returns one of its three result objects. *)
Lemma execute_returns id code language testCases timeLimit memoryLimit w :
  ∃ r w1, execute H id code language testCases timeLimit memoryLimit w = (Ok r, w1).
Proof.
  unfold execute, bind, uuidv4, finally.
  set (workDir := path_join H (host_tempDir H) (host_uuid H (ticks w))).
  destruct (try_catch (execute_body H workDir code language testCases
                         timeLimit memoryLimit) _ (bump w)) as [r w1] eqn:E.
  destruct (cleanup_spec workDir w1) as (w2 & -> & _).
  unfold try_catch, ret in E.
  destruct (execute_body _ _ _ _ _ _ _ _) as [[a|e] w'];
    injection E as <- <-; by eexists _, _.
Qed.

End ExecutorFacts.

Section BuildFacts.

Variable H : Host.

(** A run whose compile command fails stops after that command. *)
Lemma execute_failed_build id code language testCases timeLimit memoryLimit
    w prepared command out diagnostic :
  let workDir := path_join H (host_tempDir H) (host_uuid H (ticks w)) in
  prepareFiles_switch H workDir language = Some prepared →
  compileCommand prepared = Some command →
  (∀ t, host_fault H t (OpEnsureDir workDir) = None) →
  (∀ t, host_fault H t (OpWriteFile (sourceFile prepared)) = None) →
  (∀ t d, (host_exec H t command workDir 10000 d).2 = out) →
  build_failure out = Some diagnostic →
  ∃ time w1,
    execute H id code language testCases timeLimit memoryLimit w =
      (Ok (BuildFailed diagnostic time), w1) ∧
    exec_log w1 = exec_log w ++ [command].
Proof.
  intros workDir Hswitch Hcmd Hdir Hwrite Hout Hfail.
  unfold execute, bind, uuidv4, finally. fold workDir.
  assert (Hbody : ∃ time w1,
            execute_body H workDir code language testCases timeLimit
              memoryLimit (bump w) = (Ok (BuildFailed diagnostic time), w1) ∧
            exec_log w1 = exec_log w ++ [command]).
  { unfold execute_body, bind, ensureDir.
    rewrite io_no_fault by apply Hdir.
    unfold prepareFiles. rewrite Hswitch.
    unfold bind, writeFile. 
    match goal with
    | |- context [io H ?op ?act ?w0] =>
        rewrite (io_no_fault H op act w0) by apply Hwrite
    end.
    unfold ret at 1. rewrite Hcmd.
    unfold compile, try_catch, bind, now, execAsync.
    match goal with
    | |- context [host_exec H ?t command workDir 10000 ?d] =>
        pose proof (Hout t d) as Ho;
        destruct (host_exec H t command workDir 10000 d) as [d1 o]
    end.
    simpl in Ho. subst o.
    destruct out as [stdout [|c stderr]|e]; simpl in Hfail;
      [done| |]; injection Hfail as <-.
    - simpl. eexists _, _. split; [reflexivity|].
      simpl. by destruct (disk _ !! _).
    - unfold stderr_or_message, or_else, ret.
      eexists _, _. split.
      + destruct (err_stderr e) as [[|c stderr]|]; reflexivity.
      + simpl. by destruct (disk _ !! _). }
  destruct Hbody as (time & w1 & Hbody & Hlog).
  rewrite (try_catch_Ok _ _ _ _ _ Hbody).
  destruct (cleanup_spec H workDir w1) as (w2 & -> & Hlog2 & _).
  eexists _, _. split; [reflexivity|]. by rewrite Hlog2.
Qed.

End BuildFacts.

Section ExecutorClaims.

Variable H : Host.



(** C6: with an empty test-case list [execute] is never [accepted]; when
    it returns a graded result (the build did not fail and no host fault
    occurred) the status is [wrong-answer] with [maxScore] 0 and [score]
    0. *)
Theorem empty_run_is_wrong_answer id code language timeLimit memoryLimit w :
  ∃ r w1,
    execute H id code language [] timeLimit memoryLimit w = (Ok r, w1) ∧
    result_status r ≠ Accepted ∧
    ∀ g, r = GradedRun g →
         g_status g = WrongAnswer ∧ g_maxScore g = 0%Z ∧ g_score g = 0%Z ∧
         g_testCasesPassed g = 0%nat ∧ g_totalTestCases g = 0%nat.
Proof.
  unfold execute, execute_body, bind, finally, uuidv4.
  set (workDir := path_join H (host_tempDir H) (host_uuid H (ticks w))).
  match goal with
  | |- context [try_catch ?m ?h (bump w)] =>
      assert (Hbody : ∃ r w1, try_catch m h (bump w) = (Ok r, w1) ∧
                 result_status r ≠ Accepted ∧
                 ∀ g, r = GradedRun g →
                   g_status g = WrongAnswer ∧ g_maxScore g = 0%Z ∧
                   g_score g = 0%Z ∧ g_testCasesPassed g = 0%nat ∧
                   g_totalTestCases g = 0%nat)
  end.
  { unfold try_catch, ret; simpl.
    destruct (ensureDir _ _ _) as [[[]|e] w1];
      [|eexists _, _; by repeat split].
    destruct (prepareFiles _ _ _ _ _) as [[prepared|e] w2];
      [|eexists _, _; by repeat split].
    destruct (compileCommand prepared) as [command|].
    - destruct (compile _ _ _ _) as [[[time|err time]|e] w3];
        eexists _, _; (split; [reflexivity|]); split; try done;
        intros g [= <-]; by repeat split.
    - eexists _, _; (split; [reflexivity|]); split; try done;
        intros g [= <-]; by repeat split. }
  destruct Hbody as (r & w1 & -> & Hr).
  destruct (cleanup_spec H workDir w1) as (w2 & -> & _).
  by eexists _, _.
Qed.

(** C5: when the language has a compile command and [exec] rejects it
    (the build tool exits with a non-zero status, is killed, or cannot be
    started), [execute] returns the [compilation-error] result; the only
    shell command run is the compile command, so no test case is
    attempted; the result carries the build tool's stderr text unchanged
    whenever it wrote any (and the message of the rejection otherwise). *)
Theorem failed_build_short_circuits id code language testCases timeLimit
    memoryLimit w prepared command e :
  let workDir := path_join H (host_tempDir H) (host_uuid H (ticks w)) in
  prepareFiles_switch H workDir language = Some prepared →
  compileCommand prepared = Some command →
  (∀ t, host_fault H t (OpEnsureDir workDir) = None) →
  (∀ t, host_fault H t (OpWriteFile (sourceFile prepared)) = None) →
  (∀ t d, (host_exec H t command workDir 10000 d).2 = Rejected e) →
  ∃ diagnostic time w1,
    execute H id code language testCases timeLimit memoryLimit w =
      (Ok (BuildFailed diagnostic time), w1) ∧
    result_status (BuildFailed diagnostic time) = CompilationError ∧
    exec_log w1 = exec_log w ++ [command] ∧
    (∀ text, err_stderr e = Some text → text ≠ [] → diagnostic = text) ∧
    ((err_stderr e = None ∨ err_stderr e = Some []) →
     diagnostic = err_message e).
Proof.
  intros workDir Hswitch Hcmd Hdir Hwrite Hout.
  destruct (execute_failed_build H id code language testCases timeLimit
              memoryLimit w prepared command (Rejected e) _
              Hswitch Hcmd Hdir Hwrite Hout eq_refl) as (time & w1 & Hrun & Hlog).
  eexists _, time, w1. split; [exact Hrun|].
  split; [done|]. split; [done|]. split.
  - intros text -> Hne. by destruct text.
  - by intros [->| ->].
Qed.

(** C10: when the compile command of a compiled language resolves (the
    compiler exits with status 0) but wrote text to stderr, [execute]
    returns the [compilation-error] result carrying that text, and no
    test case is run; the C++ compile command passes [-Wall]. *)
Theorem stderr_text_fails_build id code language testCases timeLimit
    memoryLimit w prepared command stdout stderr :
  let workDir := path_join H (host_tempDir H) (host_uuid H (ticks w)) in
  prepareFiles_switch H workDir language = Some prepared →
  compileCommand prepared = Some command →
  (∀ t, host_fault H t (OpEnsureDir workDir) = None) →
  (∀ t, host_fault H t (OpWriteFile (sourceFile prepared)) = None) →
  (∀ t d, (host_exec H t command workDir 10000 d).2 = Resolved stdout stderr) →
  stderr ≠ [] →
  (∃ time w1,
     execute H id code language testCases timeLimit memoryLimit w =
       (Ok (BuildFailed stderr time), w1) ∧
     result_status (BuildFailed stderr time) = CompilationError ∧
     exec_log w1 = exec_log w ++ [command]) ∧
  (language = lit "cpp" →
   command = lit "g++ -std=c++17 -O2 -Wall " ++ sourceFile prepared
               ++ lit " -o " ++ executableFile prepared).
Proof.
  intros workDir Hswitch Hcmd Hdir Hwrite Hout Hne.
  split.
  - destruct stderr as [|c stderr]; [done|].
    destruct (execute_failed_build H id code language testCases timeLimit
                memoryLimit w prepared command (Resolved stdout (c :: stderr)) _
                Hswitch Hcmd Hdir Hwrite Hout eq_refl)
      as (time & w1 & Hrun & Hlog).
    by eexists time, w1.
  - intros ->. unfold prepareFiles_switch in Hswitch.
    rewrite bool_decide_eq_true_2 in Hswitch by done.
    injection Hswitch as <-. simpl in Hcmd. by injection Hcmd as <-.
Qed.

End ExecutorClaims.

(** ** Resolving the overall status *)

Section StatusFacts.


Lemma scan_errors_first status rs1 r rs2 c :
  Forall (λ r', classify_error (error r') = None) rs1 →
  classify_error (error r) = Some c →
  scan_errors status (rs1 ++ r :: rs2) = c.
Proof.
  induction 1 as [|r' rs Hr' _ IH]; simpl; intros Hr.
  - by rewrite Hr.
  - rewrite Hr'. by apply IH.
Qed.

(** When every classified result carries the same classification [c],
    the scan yields [c] if some result is classified and the score-based
    status otherwise. *)
Lemma scan_errors_uniform status rs c :
  Forall (λ r, classify_error (error r) = None ∨
               classify_error (error r) = Some c) rs →
  scan_errors status rs =
    if bool_decide (Exists (λ r, classify_error (error r) = Some c) rs)
    then c else status.
Proof.
  induction 1 as [|r rs Hr _ IH]; cbn [scan_errors].
  - rewrite bool_decide_eq_false_2; [done|]. by intros ?%Exists_nil.
  - destruct Hr as [Hr|Hr]; rewrite Hr.
    + rewrite IH.
      assert (Hiff : Exists (λ r, classify_error (error r) = Some c) rs ↔
                     Exists (λ r, classify_error (error r) = Some c) (r :: rs)).
      { rewrite Exists_cons. split; [tauto|]. intros [E|E]; [congruence|done]. }
      by rewrite (bool_decide_ext _ _ Hiff).
    + rewrite bool_decide_eq_true_2; [done|]. by left.
Qed.

End StatusFacts.

(** C2, as stated, fails: in a run with two test cases where the first
    run exits with status 1 and the second is killed at the time limit,
    the build is not involved, the result list contains a timed-out case,
    and the overall status is [runtime-error]. *)
Lemma timeout_after_crash_is_runtime_error :
  ∃ g w1,
    execute (Examples.host_with Examples.crash_then_timeout_exec) 7
            (lit "int main() { return 1; }") (lit "cpp")
            [Examples.case_of (lit "1") (lit "1") (Some 10%Z);
             Examples.case_of (lit "2") (lit "2") (Some 10%Z)]
            (Some 1000%Z) None empty_world = (Ok (GradedRun g), w1) ∧
    Exists (λ r, error r = lit "Time limit exceeded") (g_testCaseResults g) ∧
    g_status g = RuntimeError ∧
    g_status g ≠ TimeLimitExceeded.
Proof.
  eexists _, _. split; [vm_compute; reflexivity|].
  split; [|by split].
  apply Exists_cons_tl, Exists_cons_hd. reflexivity.
Qed.

(** C2, amended: the overall status is the classification of the first
    result, in list order, whose error text is classified; a timed-out
    result therefore decides [time-limit-exceeded] when no result before
    it carries a memory-limit or runtime-error classification, whatever
    the scores and whatever follows it. *)
Theorem first_timeout_decides totalScore maxScore rs1 r rs2 :
  Forall (λ r', classify_error (error r') = None ∨
                classify_error (error r') = Some TimeLimitExceeded) rs1 →
  classify_error (error r) = Some TimeLimitExceeded →
  determine_status totalScore maxScore (rs1 ++ r :: rs2) = TimeLimitExceeded.
Proof.
  unfold determine_status. generalize (score_status totalScore maxScore).
  intros status. induction 1 as [|r' rs Hr' _ IH]; simpl; intros Hr.
  - by rewrite Hr.
  - destruct Hr' as [-> | ->]; [by apply IH|done].
Qed.

(** C3, as stated, fails: the two orders of a crashed and a timed-out
    result resolve to different statuses. *)
Lemma status_depends_on_order :
  ¬ (∀ totalScore maxScore rs rs',
       rs ≡ₚ rs' →
       determine_status totalScore maxScore rs =
       determine_status totalScore maxScore rs').
Proof.
  intros Hperm.
  specialize (Hperm 0%Z 20%Z
                [Examples.crashed_result; Examples.timed_out_result]
                [Examples.timed_out_result; Examples.crashed_result]
                (perm_swap _ _ _)).
  vm_compute in Hperm. discriminate.
Qed.

(** C3, amended: the overall status is the same for every order of the
    results when all results whose error text is classified carry the
    same classification (in particular when none is classified). *)
Theorem status_order_independent totalScore maxScore rs rs' c :
  rs ≡ₚ rs' →
  Forall (λ r, classify_error (error r) = None ∨
               classify_error (error r) = Some c) rs →
  determine_status totalScore maxScore rs =
  determine_status totalScore maxScore rs'.
Proof.
  intros Hperm Hall. unfold determine_status.
  rewrite (scan_errors_uniform _ rs c Hall).
  rewrite (scan_errors_uniform _ rs' c).
  - assert (Hiff : Exists (λ r, classify_error (error r) = Some c) rs ↔
                   Exists (λ r, classify_error (error r) = Some c) rs').
    { by rewrite Hperm. }
    by rewrite (bool_decide_ext _ _ Hiff).
  - by rewrite <- Hperm.
Qed.

(** ** Output comparison *)

Section NormalizeClaims.

Lemma split_lines_single s : LF ∉ s → split_lines s = [s].
Proof.
  induction s as [|c r IH]; [done|].
  intros Hnot. apply not_elem_of_cons in Hnot as [Hc Hr].
  simpl. rewrite IH by done.
  destruct (N.eqb_spec c LF); [by subst|done].
Qed.

Lemma normalizeOutput_clean_line s :
  starts_clean s → ends_clean s → LF ∉ s → normalizeOutput s = s.
Proof.
  intros Hs He Hlf. unfold normalizeOutput.
  rewrite split_lines_single by done. simpl.
  rewrite (trim_fixed s Hs He).
  rewrite filter_cons_True.
  - rewrite filter_nil. simpl. by apply trim_fixed.
  - destruct Hs as (a & r & -> & _). simpl. lia.
Qed.

End NormalizeClaims.

(** C4, as stated, fails: the reference transform keeps leading
    whitespace of a line, [normalizeOutput] strips it. *)
Lemma normalizeOutput_strips_leading_space :
  ¬ (∀ s, normalizeOutput s = spec_normalize s).
Proof.
  intros Heq. specialize (Heq (lit " a")). vm_compute in Heq. discriminate.
Qed.

(** C4, amended: [normalizeOutput] equals this transform for every
    input: split into lines, trim leading and trailing whitespace of
    each line, drop the lines left empty, rejoin (the final trim changes
    nothing); trailing newlines never change the normalized text; an
    extra space inside a line does. *)
Theorem normalizeOutput_reference :
  (∀ s, normalizeOutput s = line_normalize s) ∧
  (∀ s k, normalizeOutput (s ++ replicate k LF) = normalizeOutput s) ∧
  (∀ u v, starts_clean u → ends_clean v → LF ∉ u → LF ∉ v →
          normalizeOutput (u ++ 32 :: v) ≠ normalizeOutput (u ++ v)).
Proof.
  split; [exact normalizeOutput_line_normalize|].
  split; [exact normalizeOutput_trailing_newlines|].
  intros u v Hu Hv Hlu Hlv.
  assert (Hstart : ∀ x, starts_clean (u ++ x)).
  { intros x. destruct Hu as (a & r & -> & Ha). by exists a, (r ++ x). }
  assert (Hend : ∀ x, ends_clean (x ++ v)).
  { intros x. destruct Hv as (r & z & -> & Hz). exists (x ++ r), z.
    by rewrite app_assoc. }
  rewrite (normalizeOutput_clean_line (u ++ 32 :: v)).
  - rewrite (normalizeOutput_clean_line (u ++ v)).
    + intros Heq%(f_equal length). rewrite !length_app in Heq.
      simpl in Heq. lia.
    + apply Hstart.
    + apply Hend.
    + rewrite elem_of_app. tauto.
  - apply Hstart.
  - replace (u ++ 32 :: v) with ((u ++ [32]) ++ v) by (by rewrite <- app_assoc).
    apply Hend.
  - rewrite elem_of_app, elem_of_cons. intros [?|[?|?]]; done.
Qed.

(** C1, at the failing input: the program echoes the input ["1"] of a
    test case whose expected output is ["1"]; the normalized actual and
    expected outputs are equal, yet the case is marked failed and the
    run is [wrong-answer]. A program that prints nothing is marked
    passed on the same test case. *)
Theorem passed_ignores_expected_output :
  (∃ g r w1,
     execute (Examples.host_with Examples.echo_exec) 7
             (lit "print(input())") (lit "python")
             [Examples.case_of (lit "1") (lit "1") (Some 10%Z)]
             (Some 1000%Z) None empty_world = (Ok (GradedRun g), w1) ∧
     g_testCaseResults g = [r] ∧
     error r = [] ∧
     actualOutput r = normalizeOutput (expectedOutput r) ∧
     passed r = false ∧
     g_status g = WrongAnswer) ∧
  (∃ g r w1,
     execute (Examples.host_with Examples.silent_exec) 7
             (lit "pass") (lit "python")
             [Examples.case_of (lit "1") (lit "1") (Some 10%Z)]
             (Some 1000%Z) None empty_world = (Ok (GradedRun g), w1) ∧
     g_testCaseResults g = [r] ∧
     actualOutput r ≠ normalizeOutput (expectedOutput r) ∧
     passed r = true ∧
     g_status g = Accepted).
Proof.
  split.
  - eexists _, _, _. split; [vm_compute; reflexivity|].
    split; [reflexivity|]. by vm_compute.
  - eexists _, _, _. split; [vm_compute; reflexivity|].
    split; [reflexivity|]. by vm_compute.
Qed.

(** ** One grading run per submission id *)

Section ServerFacts.

Variable H : Host.

Lemma grows_refl s : grows s s.
Proof. by repeat split. Qed.

Lemma grows_trans s1 s2 s3 : grows s1 s2 → grows s2 s3 → grows s1 s3.
Proof.
  intros (Hp & Hr & Hs) (Hp' & Hr' & Hs').
  repeat split; [congruence|congruence|auto].
Qed.

Lemma grows_set_world w s : grows s (set_world w s).
Proof. by repeat split. Qed.

Lemma growing_ret {A} (a : A) : growing (ret a).
Proof. intros s. apply grows_refl. Qed.

Lemma growing_bind {A B} (m : SM A) (k : A → SM B) :
  growing m → (∀ a, growing (k a)) → growing (bind m k).
Proof.
  intros Hm Hk s. unfold bind. specialize (Hm s).
  destruct (m s) as [[a|e] s1]; [|done].
  eapply grows_trans; [exact Hm|apply Hk].
Qed.

Lemma growing_try_catch {A} (m : SM A) h :
  growing m → (∀ e, growing (h e)) → growing (try_catch m h).
Proof.
  intros Hm Hh s. unfold try_catch. specialize (Hm s).
  destruct (m s) as [[a|e] s1]; [done|].
  eapply grows_trans; [exact Hm|apply Hh].
Qed.

Lemma growing_lift {A} (m : M A) : growing (lift m).
Proof.
  intros s. unfold lift. destruct (m (world s)) as [r w].
  apply grows_set_world.
Qed.

Lemma growing_db {A} op (act : Server → Res A * Server) :
  growing act → growing (db H op act).
Proof.
  intros Hact s. unfold db.
  destruct (host_fault H _ _); [apply grows_set_world|].
  eapply grows_trans; [apply grows_set_world|apply Hact].
Qed.

Lemma growing_findSubmission id : growing (findSubmission H id).
Proof. apply growing_db. intros s. apply grows_refl. Qed.

Lemma growing_saveSubmission id doc : growing (saveSubmission H id doc).
Proof.
  apply growing_db. intros s. repeat split; simpl.
  intros id' Hid'. destruct (decide (id = id')) as [->|Hne].
  - rewrite lookup_insert_eq. by eexists.
  - by rewrite lookup_insert_ne.
Qed.

Lemma growing_updateSubmissionStats problem a b :
  growing (updateSubmissionStats H problem a b).
Proof. apply growing_db. intros s. by repeat split. Qed.

Lemma growing_processSubmission id problem code language :
  growing (processSubmission H id problem code language).
Proof.
  unfold processSubmission.
  apply growing_try_catch.
  - apply growing_bind; [apply growing_findSubmission|].
    intros [submission|]; [|apply growing_ret].
    apply growing_bind; [apply growing_saveSubmission|]. intros _.
    apply growing_bind; [apply growing_lift|]. intros result.
    apply growing_bind; [apply growing_saveSubmission|]. intros _.
    apply growing_bind; [apply growing_updateSubmissionStats|]. intros _.
    intros s. apply grows_set_world.
  - intros e. apply growing_try_catch; [|intros _; apply growing_ret].
    apply growing_bind; [apply growing_findSubmission|].
    intros [submission|]; [apply growing_saveSubmission|apply growing_ret].
Qed.







End ServerFacts.



(** ** The theorems at concrete inputs *)

Section Witnesses.

Import Examples ServerExamples.



Lemma empty_run_is_wrong_answer_witness :
  ∃ g w1,
    execute (host_with echo_exec) 7 (lit "print(input())") (lit "python")
            [] (Some 1000%Z) None empty_world = (Ok (GradedRun g), w1) ∧
    g_status g = WrongAnswer ∧ g_maxScore g = 0%Z ∧ g_score g = 0%Z.
Proof.
  destruct (empty_run_is_wrong_answer (host_with echo_exec) 7
              (lit "print(input())") (lit "python") (Some 1000%Z) None
              empty_world) as (r & w1 & Hrun & _ & Hgraded).
  pose proof Hrun as Hshape. vm_compute in Hshape.
  injection Hshape as <- _.
  eexists _, w1. split; [exact Hrun|].
  destruct (Hgraded _ eq_refl) as (Hs & Hm & Hsc & _). by repeat split.
Defined.

Lemma failed_build_short_circuits_witness :
  ∃ diagnostic time w1,
    execute (host_with broken_build_exec) 7 (lit "int main() {") (lit "cpp")
            [case_of (lit "1") (lit "1") (Some 10%Z)] (Some 1000%Z) None
            empty_world = (Ok (BuildFailed diagnostic time), w1) ∧
    exec_log w1 =
      [lit "g++ -std=c++17 -O2 -Wall /tmp/0001/solution.cpp -o /tmp/0001/solution"] ∧
    diagnostic = lit "error: expected ;".
Proof.
  edestruct (failed_build_short_circuits (host_with broken_build_exec) 7
               (lit "int main() {") (lit "cpp")
               [case_of (lit "1") (lit "1") (Some 10%Z)] (Some 1000%Z) None
               empty_world)
    as (diagnostic & time & w1 & Hrun & _ & Hlog & Hdiag & _).
  - reflexivity.
  - reflexivity.
  - intros t. reflexivity.
  - intros t. reflexivity.
  - intros t d. reflexivity.
  - exists diagnostic, time, w1. split; [exact Hrun|]. split; [exact Hlog|].
    by apply Hdiag.
Defined.

Lemma stderr_text_fails_build_witness :
  ∃ time w1,
    execute (host_with warning_exec) 7 (lit "int main() { int x; }") (lit "cpp")
            [case_of (lit "1") (lit "1") (Some 10%Z)] (Some 1000%Z) None
            empty_world =
      (Ok (BuildFailed (lit "warning: unused variable") time), w1) ∧
    exec_log w1 =
      [lit "g++ -std=c++17 -O2 -Wall /tmp/0001/solution.cpp -o /tmp/0001/solution"].
Proof.
  edestruct (stderr_text_fails_build (host_with warning_exec) 7
               (lit "int main() { int x; }") (lit "cpp")
               [case_of (lit "1") (lit "1") (Some 10%Z)] (Some 1000%Z) None
               empty_world)
    as [(time & w1 & Hrun & _ & Hlog) _].
  - reflexivity.
  - reflexivity.
  - intros t. reflexivity.
  - intros t. reflexivity.
  - intros t d. reflexivity.
  - discriminate.
  - by exists time, w1.
Defined.

Lemma first_timeout_decides_witness :
  classify_error (error timed_out_result) = Some TimeLimitExceeded ∧
  determine_status 10 30 ([passed_result] ++ timed_out_result :: [crashed_result])
    = TimeLimitExceeded.
Proof.
  split; [reflexivity|].
  apply first_timeout_decides; [|reflexivity].
  apply Forall_cons. split; [by left|apply Forall_nil_2].
Defined.

Lemma status_order_independent_witness :
  [timed_out_result; passed_result] ≡ₚ [passed_result; timed_out_result] ∧
  determine_status 10 20 [timed_out_result; passed_result] =
  determine_status 10 20 [passed_result; timed_out_result].
Proof.
  split; [apply perm_swap|].
  apply (status_order_independent 10 20 _ _ TimeLimitExceeded);
    [apply perm_swap|].
  apply Forall_cons. split; [by right|].
  apply Forall_cons. split; [by left|apply Forall_nil_2].
Defined.

Lemma normalizeOutput_reference_witness :
  starts_clean (lit "a ") ∧ ends_clean (lit "b") ∧
  normalizeOutput (lit "a " ++ 32 :: lit "b") ≠ normalizeOutput (lit "a " ++ lit "b").
Proof.
  assert (Hu : starts_clean (lit "a ")) by (by exists 97, [32]).
  assert (Hv : ends_clean (lit "b")) by (by exists [], 98).
  split; [exact Hu|]. split; [exact Hv|].
  apply (proj2 (proj2 normalizeOutput_reference)); [exact Hu|exact Hv| |].
  - intros Hin. apply elem_of_cons in Hin as [Hin|Hin]; [discriminate|].
    apply elem_of_cons in Hin as [Hin|Hin]; [discriminate|].
    by apply elem_of_nil in Hin.
  - intros Hin. apply elem_of_cons in Hin as [Hin|Hin]; [discriminate|].
    by apply elem_of_nil in Hin.
Defined.


End Witnesses.

(** * Further properties of the modelled code *)

(** Membership in an explicit list, as a goal and as a hypothesis. *)
Ltac list_member :=
  repeat first [apply list_elem_of_here | apply list_elem_of_further].

Ltac list_cases Hin :=
  repeat (apply elem_of_cons in Hin as [Hin|Hin];
          [try rewrite Hin; try discriminate|]);
  try (by apply elem_of_nil in Hin).

(** ** [normalizeOutput] *)

Section NormalizeFacts.

Lemma trimStart_empty s :
  trimStart s = [] ↔ Forall (λ c, is_whitespace c = true) s.
Proof.
  induction s as [|c r IH]; simpl; [by split|].
  destruct (is_whitespace c) eqn:Hc.
  - rewrite IH. split; [by constructor|]. by intros [_ ?]%Forall_cons.
  - split; [done|]. intros [? _]%Forall_cons. congruence.
Qed.

Lemma trim_empty s : trim s = [] ↔ Forall (λ c, is_whitespace c = true) s.
Proof.
  rewrite <- trimStart_empty. unfold trim. split; [|by intros ->].
  intros He. destruct (trimStart_clean s) as [|Hs]; [done|].
  apply trimEnd_keeps_head in Hs as (a & r & Hr & _). congruence.
Qed.

Lemma trimEnd_snoc_ws t c :
  is_whitespace c = true → trimEnd (t ++ [c]) = trimEnd t.
Proof.
  intros Hc. induction t as [|a t IH]; simpl; [by rewrite Hc|].
  by rewrite IH.
Qed.

Lemma trim_snoc_ws l c : is_whitespace c = true → trim (l ++ [c]) = trim l.
Proof.
  intros Hc. unfold trim. rewrite trimStart_app.
  destruct (trimStart l) as [|x t] eqn:E; [simpl; by rewrite Hc|].
  exact (trimEnd_snoc_ws (x :: t) c Hc).
Qed.

Lemma trimStart_elem x s : x ∈ trimStart s → x ∈ s.
Proof.
  induction s as [|c r IH]; simpl; [done|].
  destruct (is_whitespace c); [|done]. intros ?. right. by apply IH.
Qed.

Lemma trimEnd_elem x s : x ∈ trimEnd s → x ∈ s.
Proof.
  induction s as [|c r IH]; simpl; [done|].
  destruct (trimEnd r) as [|b r'] eqn:E.
  - destruct (is_whitespace c); [by intros ?%elem_of_nil|].
    intros ->%list_elem_of_singleton. by left.
  - intros [->|Hx]%elem_of_cons; [by left|]. right. by apply IH.
Qed.

Lemma trim_elem x s : x ∈ trim s → x ∈ s.
Proof. intros ?%trimEnd_elem. by apply trimStart_elem. Qed.

Lemma split_lines_app_LF a b :
  split_lines (a ++ LF :: b) = split_lines a ++ split_lines b.
Proof.
  induction a as [|c a IH]; simpl; [done|].
  rewrite IH. destruct (c =? LF); [done|].
  pose proof (split_lines_nonempty a). by destruct (split_lines a).
Qed.

Lemma split_lines_snoc c s :
  c ≠ LF →
  ∃ ls l, split_lines s = ls ++ [l] ∧ split_lines (s ++ [c]) = ls ++ [l ++ [c]].
Proof.
  intros Hc. induction s as [|a s (ls & l & E1 & E2)]; simpl.
  - exists [], []. simpl. by destruct (N.eqb_spec c LF).
  - rewrite E1, E2. destruct (a =? LF).
    + by exists ([] :: ls), l.
    + destruct ls as [|l0 ls]; simpl.
      * by exists [], (a :: l).
      * by exists ((a :: l0) :: ls), l.
Qed.

Lemma split_lines_no_LF s : Forall (λ l, LF ∉ l) (split_lines s).
Proof.
  induction s as [|c s IH]; simpl.
  - constructor; [by intros ?%elem_of_nil|constructor].
  - destruct (N.eqb_spec c LF) as [->|Hc].
    + constructor; [by intros ?%elem_of_nil|done].
    + destruct (split_lines s) as [|l ls]; simpl.
      * constructor; [|constructor].
        intros [?|?%elem_of_nil]%elem_of_cons; done.
      * apply Forall_cons in IH as [Hl Hls]. constructor; [|done].
        intros [?|?]%elem_of_cons; done.
Qed.

Lemma split_lines_all_ws s :
  Forall (Forall (λ c, is_whitespace c = true)) (split_lines s) ↔
  Forall (λ c, is_whitespace c = true) s.
Proof.
  induction s as [|c s IH]; simpl.
  - split; [constructor|]. intros _. by repeat constructor.
  - destruct (N.eqb_spec c LF) as [->|Hc].
    + rewrite !Forall_cons, IH. split; [by intros [_ ?]|]. by intros [_ ?].
    + pose proof (split_lines_nonempty s).
      destruct (split_lines s) as [|l ls]; [done|].
      rewrite !Forall_cons in *. rewrite <- IH. tauto.
Qed.

End NormalizeFacts.

Section KeptLines.

Lemma normalizeOutput_kept s : normalizeOutput s = join_lines (kept_lines s).
Proof. apply normalizeOutput_line_normalize. Qed.

Lemma kept_lines_app_LF a b :
  kept_lines (a ++ LF :: b) = kept_lines a ++ kept_lines b.
Proof.
  unfold kept_lines. by rewrite split_lines_app_LF, fmap_app, filter_app.
Qed.

Lemma kept_lines_cons_ws c s :
  is_whitespace c = true → kept_lines (c :: s) = kept_lines s.
Proof.
  intros Hc. unfold kept_lines. simpl.
  destruct (c =? LF).
  - simpl. rewrite filter_cons_False; [done|]. unfold trim. simpl. lia.
  - pose proof (split_lines_nonempty s).
    destruct (split_lines s) as [|l ls]; [done|].
    rewrite !fmap_cons. f_equal. f_equal. unfold trim. simpl. by rewrite Hc.
Qed.

Lemma kept_lines_snoc_ws c s :
  is_whitespace c = true → kept_lines (s ++ [c]) = kept_lines s.
Proof.
  intros Hc. unfold kept_lines.
  destruct (decide (c = LF)) as [->|Hne].
  - rewrite split_lines_snoc_LF, fmap_app, filter_app. simpl.
    rewrite filter_cons_False, filter_nil, app_nil_r; [done|].
    unfold trim. simpl. lia.
  - destruct (split_lines_snoc c s Hne) as (ls & l & -> & ->).
    rewrite !fmap_app. simpl. by rewrite trim_snoc_ws.
Qed.

Lemma kept_lines_shape s :
  Forall (λ l, starts_clean l ∧ ends_clean l ∧ LF ∉ l) (kept_lines s).
Proof.
  apply Forall_forall. intros l Hl.
  pose proof (kept_lines_clean s) as Hclean.
  rewrite Forall_forall in Hclean. destruct (Hclean l Hl) as [Hs He].
  split; [done|]. split; [done|].
  apply list_elem_of_filter in Hl as [_ Hl].
  apply list_elem_of_fmap in Hl as (x & -> & Hx).
  pose proof (split_lines_no_LF s) as Hno. rewrite Forall_forall in Hno.
  intros Hin%trim_elem. by apply (Hno x Hx).
Qed.

Lemma kept_lines_clean_line l :
  starts_clean l → ends_clean l → LF ∉ l → kept_lines l = [l].
Proof.
  intros Hs He Hlf. unfold kept_lines.
  rewrite split_lines_single by done. simpl.
  rewrite (trim_fixed l Hs He), filter_cons_True; [done|].
  destruct Hs as (a & r & -> & _). simpl. lia.
Qed.

Lemma kept_lines_join ls :
  Forall (λ l, starts_clean l ∧ ends_clean l ∧ LF ∉ l) ls →
  kept_lines (join_lines ls) = ls.
Proof.
  induction ls as [|l rest IH]; intros Hall.
  - reflexivity.
  - apply Forall_cons in Hall as [(Hs & He & Hlf) Hrest].
    destruct rest as [|l' rest'].
    + by apply kept_lines_clean_line.
    + change (join_lines (l :: l' :: rest'))
        with (l ++ LF :: join_lines (l' :: rest')).
      rewrite kept_lines_app_LF, IH by done.
      by rewrite kept_lines_clean_line.
Qed.

Lemma join_lines_nil ls :
  Forall (λ l, starts_clean l) ls → join_lines ls = [] → ls = [].
Proof.
  destruct ls as [|l rest]; [done|].
  intros [(a & r & -> & _) _]%Forall_cons. simpl. by destruct rest.
Qed.

Lemma join_lines_app l1 l2 :
  l1 ≠ [] → l2 ≠ [] →
  join_lines (l1 ++ l2) = join_lines l1 ++ LF :: join_lines l2.
Proof.
  intros H1 H2. induction l1 as [|l rest IH]; [done|].
  destruct rest as [|l' rest'].
  - simpl. by destruct l2.
  - change (join_lines ((l :: l' :: rest') ++ l2))
      with (l ++ LF :: join_lines ((l' :: rest') ++ l2)).
    rewrite IH by done.
    change (join_lines (l :: l' :: rest'))
      with (l ++ LF :: join_lines (l' :: rest')).
    by rewrite <- app_assoc.
Qed.

Lemma kept_lines_nil s : kept_lines s = [] ↔ all_whitespace s.
Proof.
  unfold all_whitespace. rewrite <- split_lines_all_ws. unfold kept_lines.
  induction (split_lines s) as [|l ls IH]; [by split|].
  rewrite fmap_cons, Forall_cons, <- IH, <- trim_empty.
  destruct (trim l) as [|x t] eqn:E.
  - rewrite filter_cons_False by (simpl; lia). tauto.
  - rewrite filter_cons_True by (simpl; lia). split; [done|]. by intros [? _].
Qed.

End KeptLines.

(** Normalizing twice is the same as normalizing once. *)
Theorem normalizeOutput_idempotent s :
  normalizeOutput (normalizeOutput s) = normalizeOutput s.
Proof.
  rewrite !normalizeOutput_kept.
  by rewrite (kept_lines_join _ (kept_lines_shape s)).
Qed.

(** The normalized text is empty exactly when the input consists of
    whitespace only (the empty string included). *)
Theorem normalizeOutput_empty_iff s :
  normalizeOutput s = [] ↔ all_whitespace s.
Proof.
  rewrite normalizeOutput_kept, <- kept_lines_nil. split.
  - apply join_lines_nil. eapply Forall_impl; [apply kept_lines_shape|].
    by intros l [? _].
  - by intros ->.
Qed.

(** Whitespace before the first and after the last non-blank character
    of the whole output, line breaks included, does not change the
    normalized text. *)
Theorem normalizeOutput_ignores_outer_whitespace pre s post :
  all_whitespace pre → all_whitespace post →
  normalizeOutput (pre ++ s ++ post) = normalizeOutput s.
Proof.
  intros Hpre Hpost. rewrite !normalizeOutput_kept. f_equal.
  induction Hpre as [|c pre Hc _ IH]; simpl.
  - revert s. induction Hpost as [|c post Hc _ IH]; intros s.
    + by rewrite app_nil_r.
    + rewrite (cons_middle c s post), app_assoc, IH.
      by apply kept_lines_snoc_ws.
  - by rewrite kept_lines_cons_ws.
Qed.

(** A carriage return before a line feed is ignored: text with CR LF
    line ends normalizes like the same text with LF line ends. *)
Theorem normalizeOutput_ignores_CR a b :
  normalizeOutput (a ++ 13 :: LF :: b) = normalizeOutput (a ++ LF :: b).
Proof.
  rewrite !normalizeOutput_kept. f_equal.
  rewrite (cons_middle 13 a (LF :: b)), app_assoc.
  rewrite !kept_lines_app_LF. f_equal.
  by apply kept_lines_snoc_ws.
Qed.

(** Normalization works line block by line block: the normalized text
    of two parts separated by a line feed is the normalized first part,
    a line feed, and the normalized second part, where an empty part
    contributes nothing (no line feed either). *)
Theorem normalizeOutput_of_parts a b :
  normalizeOutput (a ++ LF :: b) =
    match normalizeOutput a, normalizeOutput b with
    | [], y => y
    | x, [] => x
    | x, y => x ++ LF :: y
    end.
Proof.
  rewrite !normalizeOutput_kept, kept_lines_app_LF.
  assert (Hnil : ∀ s, join_lines (kept_lines s) = [] → kept_lines s = []).
  { intros s. apply join_lines_nil.
    eapply Forall_impl; [apply kept_lines_shape|]. by intros l [? _]. }
  destruct (kept_lines a) as [|la ra] eqn:Ea; [done|].
  destruct (kept_lines b) as [|lb rb] eqn:Eb.
  - rewrite app_nil_r. by destruct (join_lines (la :: ra)).
  - rewrite join_lines_app by done.
    destruct (join_lines (la :: ra)) as [|x xs] eqn:Ja.
    { rewrite <- Ea in Ja. apply Hnil in Ja. congruence. }
    destruct (join_lines (lb :: rb)) as [|y ys] eqn:Jb; [|done].
    rewrite <- Eb in Jb. apply Hnil in Jb. congruence.
Qed.

(** ** The executor *)

Section ExecutorMore.

Variable H : Host.

Lemma ran_at_most_refl w : ran_at_most 0 w w.
Proof. exists []. by rewrite app_nil_r. Qed.

Lemma ran_at_most_trans j k w1 w2 w3 :
  ran_at_most j w1 w2 → ran_at_most k w2 w3 → ran_at_most (j + k) w1 w3.
Proof.
  intros (c1 & E1 & L1) (c2 & E2 & L2). exists (c1 ++ c2).
  rewrite E2, E1, app_assoc, length_app. split; [done|lia].
Qed.

Lemma ran_at_most_weaken j k w1 w2 :
  (j ≤ k)%nat → ran_at_most j w1 w2 → ran_at_most k w1 w2.
Proof. intros Hle (c & E & L). exists c. split; [done|lia]. Qed.

Lemma ran_at_most_same_log k w w1 :
  exec_log w1 = exec_log w → ran_at_most k w w1.
Proof. intros E. exists []. rewrite app_nil_r. split; [done|simpl; lia]. Qed.

Lemma io_log {A} op (act : World → Res A * World) w :
  (∀ w0, exec_log (act w0).2 = exec_log w0) →
  exec_log (io H op act w).2 = exec_log w.
Proof.
  intros Hact. unfold io. destruct (host_fault H (ticks w) op); [done|].
  by rewrite Hact.
Qed.

Lemma ensureDir_log p w : exec_log (ensureDir H p w).2 = exec_log w.
Proof. apply io_log. intros w0. simpl. by destruct (disk w0 !! p). Qed.

Lemma writeFile_log p c w : exec_log (writeFile H p c w).2 = exec_log w.
Proof. by apply io_log. Qed.

Lemma remove_log p w : exec_log (remove H p w).2 = exec_log w.
Proof. by apply io_log. Qed.

Lemma readFile_log p w : exec_log (readFile H p w).2 = exec_log w.
Proof.
  apply io_log. intros w0. by destruct (disk w0 !! p) as [[|content]|].
Qed.

Lemma execAsync_log cmd cwd timeout w :
  exec_log (execAsync H cmd cwd timeout w).2 = exec_log w ++ [cmd].
Proof.
  unfold execAsync. destruct (host_exec H _ _ _ _ _) as [d [so se|e]]; done.
Qed.

(** The [finally] block of [runTestCase] runs no command. *)
Lemma runTestCase_cleanup_log a b c w :
  ∃ w1, try_catch (remove H a >> remove H b >> remove H c) (λ _, ret ()) w
          = (Ok (), w1) ∧
        exec_log w1 = exec_log w.
Proof.
  unfold try_catch, bind, ret.
  pose proof (remove_log a w) as La.
  destruct (remove H a w) as [[[]|e] wa]; simpl in La; [|by eexists].
  pose proof (remove_log b wa) as Lb.
  destruct (remove H b wa) as [[[]|e] wb]; simpl in Lb;
    [|eexists; split; [done|congruence]].
  pose proof (remove_log c wb) as Lc.
  destruct (remove H c wb) as [[[]|e] wc]; simpl in Lc;
    eexists; (split; [done|congruence]).
Qed.

(** The [try] block of [runTestCase] runs at most one command, the one
    built by [prepareExecutionCommand]. *)
Lemma runTestCase_facts workDir exe run inp timeLimit memoryLimit i w :
  ∃ res w1,
    runTestCase H workDir exe run inp timeLimit memoryLimit i w = (Ok res, w1) ∧
    run_memory res = 0%Z ∧
    (exec_log w1 = exec_log w ∨
     exec_log w1 = exec_log w ++
       [prepareExecutionCommand H run
          (path_join H workDir (lit "input_" ++ show_index i ++ lit ".txt"))
          (path_join H workDir (lit "output_" ++ show_index i ++ lit ".txt"))
          (path_join H workDir (lit "error_" ++ show_index i ++ lit ".txt"))
          timeLimit memoryLimit]).
Proof.
  unfold runTestCase, finally.
  set (inputFile := path_join H workDir (lit "input_" ++ show_index i ++ lit ".txt")).
  set (outputFile := path_join H workDir (lit "output_" ++ show_index i ++ lit ".txt")).
  set (errorFile := path_join H workDir (lit "error_" ++ show_index i ++ lit ".txt")).
  set (command := prepareExecutionCommand H run inputFile outputFile errorFile
                    timeLimit memoryLimit).
  match goal with
  | |- context [try_catch ?body ?handler w] =>
      assert (Hbody : ∃ res w1, try_catch body handler w = (Ok res, w1) ∧
                run_memory res = 0%Z ∧
                (exec_log w1 = exec_log w ∨ exec_log w1 = exec_log w ++ [command]))
  end.
  { unfold try_catch, bind, ret, now.
    pose proof (writeFile_log inputFile inp w) as Lw.
    destruct (writeFile H inputFile inp w) as [[[]|e] w1]; simpl in Lw;
      [|eexists _, _; split; [done|]; split; [done|by left]].
    pose proof (execAsync_log command workDir (timeLimit + 1000) (bump w1)) as Le.
    destruct (execAsync H command workDir (timeLimit + 1000) (bump w1))
      as [[[stdout stderr]|e] w2]; simpl in Le;
      [|eexists _, _; split; [done|]; split; [done|right; congruence]].
    pose proof (readFile_log outputFile (bump w2)) as Lo.
    destruct (readFile H outputFile (bump w2)) as [[output|e] w3]; simpl in Lo;
      [|eexists _, _; split; [done|]; split; [done|right; congruence]].
    pose proof (readFile_log errorFile w3) as Lr.
    destruct (readFile H errorFile w3) as [[errorOutput|e] w4]; simpl in Lr;
      eexists _, _; (split; [done|]); (split; [done|right; congruence]). }
  destruct Hbody as (res & w1 & -> & Hmem & Hlog).
  destruct (runTestCase_cleanup_log inputFile outputFile errorFile w1)
    as (w2 & -> & Hlog2).
  exists res, w2. split; [done|]. split; [done|].
  rewrite Hlog2. exact Hlog.
Qed.

Lemma run_cases_facts workDir exe run timeLimit memoryLimit testCases :
  ∀ i t w,
  ∃ t1 w1 rs,
    run_cases H workDir exe run timeLimit memoryLimit i testCases t w
      = (Ok t1, w1) ∧
    results t1 = results t ++ rs ∧
    Forall2 recorded testCases rs ∧
    totalScore t1 = (totalScore t + sum_scores rs)%Z ∧
    maxScore t1 = (maxScore t + sum_points testCases)%Z ∧
    (maxMemory t = 0%Z → maxMemory t1 = 0%Z) ∧
    ran_at_most (length testCases) w w1.
Proof.
  induction testCases as [|testCase rest IH]; intros i t w.
  - exists t, w, []. simpl. unfold ret. rewrite app_nil_r.
    split; [done|]. split; [done|]. split; [apply Forall2_nil_2|].
    split; [lia|]. split; [lia|]. split; [done|apply ran_at_most_refl].
  - destruct (runTestCase_facts workDir exe run (tc_input testCase)
                timeLimit memoryLimit i w) as (res & w1 & Hrun & Hmem & Hlog).
    destruct (IH (S i) (record_case i testCase res t) w1)
      as (t2 & w2 & rs & Hrest & Hres & Hrec & Hscore & Hmax & Hmm & Hran).
    simpl. unfold bind. rewrite Hrun, Hrest.
    eexists t2, w2, (_ :: rs). split; [done|].
    split; [by rewrite Hres; simpl; rewrite <- app_assoc|].
    split; [constructor; [by repeat split|done]|].
    split; [rewrite Hscore; simpl; lia|].
    split; [rewrite Hmax; simpl; lia|].
    split; [intros Hz; apply Hmm; simpl; rewrite Hmem, Hz; lia|].
    change (S (length rest)) with (1 + length rest)%nat.
    eapply ran_at_most_trans; [|exact Hran].
    destruct Hlog as [E|E]; [by apply ran_at_most_same_log|].
    by eexists [_].
Qed.

Lemma compile_facts workDir command w :
  ∃ r w1, compile H workDir command w = (Ok r, w1) ∧
          exec_log w1 = exec_log w ++ [command].
Proof.
  unfold compile, try_catch, bind, ret, now.
  pose proof (execAsync_log command workDir 10000 (bump w)) as Le.
  destruct (execAsync H command workDir 10000 (bump w))
    as [[[stdout stderr]|e] w1]; simpl in Le; simpl.
  - destruct (truthy stderr); by eexists _, _.
  - by eexists _, _.
Qed.

(** What every call of [execute] does, by return site. *)
Lemma execute_facts id code language testCases timeLimit memoryLimit w :
  let workDir := path_join H (host_tempDir H) (host_uuid H (ticks w)) in
  ∃ r w1,
    execute H id code language testCases timeLimit memoryLimit w = (Ok r, w1) ∧
    ran_at_most (1 + length testCases) w w1 ∧
    match r with
    | GradedRun g =>
        ∃ t prepared,
          g = graded_of testCases t ∧
          Forall2 recorded testCases (results t) ∧
          totalScore t = sum_scores (results t) ∧
          maxScore t = sum_points testCases ∧
          maxMemory t = 0%Z ∧
          prepareFiles_switch H workDir language = Some prepared ∧
          (compileCommand prepared = None →
           ran_at_most (length testCases) w w1)
    | BuildFailed _ _ =>
        ∃ prepared command,
          prepareFiles_switch H workDir language = Some prepared ∧
          compileCommand prepared = Some command ∧
          exec_log w1 = exec_log w ++ [command]
    | HostFault _ => exec_log w1 = exec_log w
    end.
Proof.
  intros workDir.
  unfold execute, bind, uuidv4, finally. fold workDir.
  match goal with
  | |- context [try_catch ?body ?handler (bump w)] =>
      assert (Hbody : ∃ r w1, try_catch body handler (bump w) = (Ok r, w1) ∧
        ran_at_most (1 + length testCases) w w1 ∧
        match r with
        | GradedRun g =>
            ∃ t prepared,
              g = graded_of testCases t ∧
              Forall2 recorded testCases (results t) ∧
              totalScore t = sum_scores (results t) ∧
              maxScore t = sum_points testCases ∧
              maxMemory t = 0%Z ∧
              prepareFiles_switch H workDir language = Some prepared ∧
              (compileCommand prepared = None →
               ran_at_most (length testCases) w w1)
        | BuildFailed _ _ =>
            ∃ prepared command,
              prepareFiles_switch H workDir language = Some prepared ∧
              compileCommand prepared = Some command ∧
              exec_log w1 = exec_log w ++ [command]
        | HostFault _ => exec_log w1 = exec_log w
        end)
  end.
  { unfold try_catch, execute_body, bind, ret.
    pose proof (ensureDir_log workDir (bump w)) as Ld.
    destruct (ensureDir H workDir (bump w)) as [[[]|e] w1]; simpl in Ld;
      [|eexists _, _; split; [done|];
        split; [by apply ran_at_most_same_log|done]].
    unfold prepareFiles.
    destruct (prepareFiles_switch H workDir language) as [prepared|] eqn:Hsw;
      [|eexists _, _; split; [done|];
        split; [by apply ran_at_most_same_log|done]].
    unfold bind, ret.
    pose proof (writeFile_log (sourceFile prepared) code w1) as Lw.
    destruct (writeFile H (sourceFile prepared) code w1) as [[[]|e] w2];
      simpl in Lw;
      [|eexists _, _; split; [done|];
        split; [apply ran_at_most_same_log|]; simpl; congruence].
    assert (Hcases : ∀ w3,
      ∃ t w4,
        run_cases H workDir (executableFile prepared) (runCommand prepared)
          (num_or timeLimit default_timeLimit)
          (num_or memoryLimit default_memoryLimit) 0 testCases empty_tally w3
          = (Ok t, w4) ∧
        Forall2 recorded testCases (results t) ∧
        totalScore t = sum_scores (results t) ∧
        maxScore t = sum_points testCases ∧
        maxMemory t = 0%Z ∧
        ran_at_most (length testCases) w3 w4).
    { intros w3.
      destruct (run_cases_facts workDir (executableFile prepared)
                  (runCommand prepared)
                  (num_or timeLimit default_timeLimit)
                  (num_or memoryLimit default_memoryLimit) testCases
                  0%nat empty_tally w3)
        as (t & w4 & rs & Hrun & Hres & Hrec & Hs & Hm & Hmm & Hran).
      simpl in Hres. subst rs. exists t, w4.
      split; [done|]. split; [done|]. split; [simpl in Hs; lia|].
      split; [simpl in Hm; lia|]. split; [by apply Hmm|done]. }
    destruct (compileCommand prepared) as [command|] eqn:Hcmd.
    - destruct (compile_facts workDir command w2) as (cr & w3 & -> & Lc).
      destruct cr as [time|err time].
      + destruct (Hcases w3) as (t & w4 & -> & Hrec & Hs & Hm & Hmm & Hran).
        eexists _, _. split; [done|]. split.
        * eapply (ran_at_most_trans 1 _ w w3 w4); [|exact Hran].
          exists [command]. split; [congruence|done].
        * exists t, prepared. repeat split; try done. congruence.
      + eexists _, _. split; [done|]. split.
        * eapply ran_at_most_weaken; [|exists [command]; split; [|done]];
            [simpl; lia|congruence].
        * exists prepared, command. repeat split; congruence.
    - destruct (Hcases w2) as (t & w4 & -> & Hrec & Hs & Hm & Hmm & Hran).
      assert (Hran' : ran_at_most (length testCases) w w4).
      { destruct Hran as (cmds & E & L). exists cmds. split; [congruence|done]. }
      eexists _, _. split; [done|]. split.
      + eapply ran_at_most_weaken; [|exact Hran']. lia.
      + exists t, prepared. repeat split; done. }
  destruct Hbody as (r & w1 & -> & Hran & Hr).
  destruct (cleanup_spec H workDir w1) as (w2 & -> & Hlog & _).
  exists r, w2. split; [done|].
  assert (Hsame : ∀ k, ran_at_most k w w1 → ran_at_most k w w2).
  { intros k (cmds & E & L). exists cmds. split; [congruence|done]. }
  split; [by apply Hsame|].
  destruct r as [err time|g|err].
  - destruct Hr as (prepared & command & ? & ? & ?).
    exists prepared, command. repeat split; congruence.
  - destruct Hr as (t & prepared & ? & ? & ? & ? & ? & ? & Hnone).
    exists t, prepared. repeat split; try done. intros ?. by apply Hsame, Hnone.
  - congruence.
Qed.

End ExecutorMore.

(** ** Statuses and scores *)

Section VerdictFacts.

Lemma includes_skip pre text a pat :
  Forall (λ c, c ≠ a) pre →
  includes (pre ++ text) (a :: pat) = includes text (a :: pat).
Proof.
  induction 1 as [|c pre Hc _ IH]; [done|].
  change ((c :: pre) ++ text) with (c :: (pre ++ text)).
  cbn [includes startsWith].
  destruct (N.eqb_spec a c) as [->|_]; [done|]. by rewrite <- IH.
Qed.

Lemma classify_error_range err c :
  classify_error err = Some c → c ∈ failure_statuses.
Proof.
  unfold classify_error, failure_statuses.
  repeat case_match; intros [= <-]; list_member.
Qed.

(** The table from a caught exception to the classification of the
    message chosen for it. *)
Lemma classify_errorMessage e :
  classify_error (errorMessage_of e) =
    Some (if bool_decide (err_signal e = Some (lit "SIGTERM")) ||
             bool_decide (err_signal e = Some (lit "SIGKILL"))
          then TimeLimitExceeded
          else if bool_decide (err_code e = CodeNumber 134)
          then MemoryLimitExceeded
          else match err_stderr e with
               | Some (c :: s) =>
                   if includes (c :: s) (lit "Time limit exceeded")
                   then TimeLimitExceeded
                   else if includes (c :: s) (lit "Memory limit exceeded")
                   then MemoryLimitExceeded
                   else RuntimeError
               | _ => RuntimeError
               end).
Proof.
  unfold errorMessage_of.
  destruct (_ || _); [reflexivity|].
  destruct (bool_decide (err_code e = CodeNumber 134)); [reflexivity|].
  destruct (err_stderr e) as [[|c s]|]; [reflexivity| |reflexivity].
  unfold classify_error.
  change (truthy (lit "Runtime error: " ++ c :: s)) with true.
  cbv iota.
  change (lit "Time limit exceeded") with (84 :: lit "ime limit exceeded").
  change (lit "Memory limit exceeded") with (77 :: lit "emory limit exceeded").
  rewrite !includes_skip
    by (apply Forall_forall; intros x Hx; vm_compute in Hx;
        repeat (apply elem_of_cons in Hx as [->|Hx]; [done|]);
        by apply elem_of_nil in Hx).
  destruct (includes (c :: s) _); [done|].
  destruct (includes (c :: s) _); [done|].
  reflexivity.
Qed.

Lemma scan_errors_cases status rs :
  (Forall (λ r, classify_error (error r) = None) rs ∧
   scan_errors status rs = status) ∨
  (Exists (λ r, classify_error (error r) ≠ None) rs ∧
   scan_errors status rs ∈ failure_statuses).
Proof.
  induction rs as [|r rs IH]; simpl; [left; by split|].
  destruct (classify_error (error r)) as [c|] eqn:Hc.
  - right. split; [left; congruence|]. by eapply classify_error_range.
  - destruct IH as [[Hall Hs]|[Hex Hs]].
    + left. split; [by constructor|done].
    + right. split; [by right|done].
Qed.

Lemma score_status_range totalScore maxScore :
  score_status totalScore maxScore ∈ [Accepted; WrongAnswer; PartialCorrect].
Proof.
  unfold score_status.
  repeat case_match; list_member.
Qed.

Lemma determine_status_final totalScore maxScore rs :
  determine_status totalScore maxScore rs ∈ final_statuses.
Proof.
  unfold determine_status, final_statuses.
  destruct (scan_errors_cases (score_status totalScore maxScore) rs)
    as [[_ ->]|[_ Hs]].
  - pose proof (score_status_range totalScore maxScore) as Hs.
    list_cases Hs; list_member.
  - unfold failure_statuses in Hs. list_cases Hs; list_member.
Qed.



End VerdictFacts.

Section ExecutorExtras.

Variable H : Host.


(** [execute] never throws, whatever the host does, and the status of
    the object it returns is one of the seven final statuses: never
    [pending], [compiling] or [running]. *)
Theorem execute_reports_final_status id code language testCases timeLimit
    memoryLimit w :
  ∃ r w1,
    execute H id code language testCases timeLimit memoryLimit w = (Ok r, w1) ∧
    result_status r ∈ final_statuses.
Proof.
  destruct (execute_facts H id code language testCases timeLimit memoryLimit w)
    as (r & w1 & Hrun & _ & Hr).
  exists r, w1. split; [done|].
  destruct r as [err time|g|err]; simpl.
  - unfold final_statuses. list_member.
  - destruct Hr as (t & _ & -> & _). apply determine_status_final.
  - unfold final_statuses. list_member.
Qed.

(** [execute] runs at most one shell command per test case, plus the
    compile command; for a language without compile command at most one
    per test case; a run that ends in the [catch] block (a host fault)
    ran no command at all. Earlier log entries are kept. *)
Theorem execute_command_budget id code language testCases timeLimit
    memoryLimit w :
  let workDir := path_join H (host_tempDir H) (host_uuid H (ticks w)) in
  ∃ r w1,
    execute H id code language testCases timeLimit memoryLimit w = (Ok r, w1) ∧
    ran_at_most (1 + length testCases) w w1 ∧
    (∀ prepared,
       prepareFiles_switch H workDir language = Some prepared →
       compileCommand prepared = None →
       ran_at_most (length testCases) w w1) ∧
    (∀ message, r = HostFault message → exec_log w1 = exec_log w).
Proof.
  intros workDir.
  destruct (execute_facts H id code language testCases timeLimit memoryLimit w)
    as (r & w1 & Hrun & Hran & Hr).
  exists r, w1. split; [done|]. split; [done|]. split.
  - intros prepared Hsw Hnone. destruct r as [err time|g|err].
    + destruct Hr as (p & c & Hp & Hc & _). fold workDir in Hp. congruence.
    + destruct Hr as (t & p & _ & _ & _ & _ & _ & Hp & Hn).
      fold workDir in Hp. apply Hn. congruence.
    + by apply ran_at_most_same_log.
  - by intros message ->.
Qed.

(** A graded run holds exactly one result per test case, in test-case
    order, also when earlier cases failed, timed out or crashed: each
    result echoes its test case's input and expected output and scores
    the case's points when passed and 0 otherwise. *)
Theorem execute_one_result_per_case id code language testCases timeLimit
    memoryLimit w g w1 :
  execute H id code language testCases timeLimit memoryLimit w
    = (Ok (GradedRun g), w1) →
  Forall2 recorded testCases (g_testCaseResults g) ∧
  length (g_testCaseResults g) = length testCases ∧
  g_totalTestCases g = length testCases.
Proof.
  intros Hrun.
  destruct (execute_facts H id code language testCases timeLimit memoryLimit w)
    as (r & w1' & Hrun' & _ & Hr).
  rewrite Hrun in Hrun'. injection Hrun' as <- <-.
  destruct Hr as (t & _ & -> & Hrec & _). simpl.
  split; [done|]. split; [|done]. symmetry. by eapply Forall2_length.
Qed.




(** A case whose run threw anywhere decides against a score-based
    status: if the error text of some result is a message chosen by the
    [catch] block of [runTestCase], the overall status is one of
    [time-limit-exceeded], [memory-limit-exceeded], [runtime-error],
    whatever the scores. *)
Theorem caught_exception_forces_failure totalScore maxScore rs :
  Exists (λ r, ∃ e, error r = errorMessage_of e) rs →
  determine_status totalScore maxScore rs ∈ failure_statuses.
Proof.
  intros Hex. unfold determine_status.
  destruct (scan_errors_cases (score_status totalScore maxScore) rs)
    as [[Hall _]|[_ Hs]]; [|done].
  apply Exists_exists in Hex as (r & Hr & e & He).
  rewrite Forall_forall in Hall. specialize (Hall r Hr).
  rewrite He, classify_errorMessage in Hall. done.
Qed.

(** How the message of a caught exception is classified: a child killed
    by [SIGTERM] or [SIGKILL] counts as time limit exceeded; otherwise
    exit status 134 counts as memory limit exceeded; otherwise the case
    is a runtime error, unless the stderr text attached to the exception
    itself contains the phrase of one of the other two. *)
Theorem caught_exception_classification e :
  (err_signal e = Some (lit "SIGTERM") ∨ err_signal e = Some (lit "SIGKILL") →
   classify_error (errorMessage_of e) = Some TimeLimitExceeded) ∧
  (err_signal e ≠ Some (lit "SIGTERM") → err_signal e ≠ Some (lit "SIGKILL") →
   err_code e = CodeNumber 134 →
   classify_error (errorMessage_of e) = Some MemoryLimitExceeded) ∧
  (err_signal e ≠ Some (lit "SIGTERM") → err_signal e ≠ Some (lit "SIGKILL") →
   err_code e ≠ CodeNumber 134 →
   classify_error (errorMessage_of e) =
     Some match err_stderr e with
          | Some text =>
              if includes text (lit "Time limit exceeded")
              then TimeLimitExceeded
              else if includes text (lit "Memory limit exceeded")
              then MemoryLimitExceeded
              else RuntimeError
          | None => RuntimeError
          end).
Proof.
  rewrite classify_errorMessage. split; [|split].
  - intros [-> | ->]; [done|].
    destruct (bool_decide _); [done|]. by rewrite bool_decide_eq_true_2.
  - intros H1 H2 H3.
    rewrite !bool_decide_eq_false_2, bool_decide_eq_true_2 by done. done.
  - intros H1 H2 H3. rewrite !bool_decide_eq_false_2 by done. simpl.
    by destruct (err_stderr e) as [[|c s]|].
Qed.

(** A language tag other than the four supported ones makes [execute]
    return the [runtime-error] result of its [catch] block without
    running any command; unless creating the working directory already
    failed, its error is ['Unsupported language: '] followed by the tag. *)
Theorem unsupported_language_result id code language testCases timeLimit
    memoryLimit w :
  let workDir := path_join H (host_tempDir H) (host_uuid H (ticks w)) in
  language ≠ lit "cpp" → language ≠ lit "python" →
  language ≠ lit "java" → language ≠ lit "javascript" →
  ∃ message w1,
    execute H id code language testCases timeLimit memoryLimit w
      = (Ok (HostFault message), w1) ∧
    exec_log w1 = exec_log w ∧
    (host_fault H (S (ticks w)) (OpEnsureDir workDir) = None →
     message = lit "Unsupported language: " ++ language).
Proof.
  intros workDir Hcpp Hpy Hjava Hjs.
  assert (Hsw : prepareFiles_switch H workDir language = None).
  { unfold prepareFiles_switch. by rewrite !bool_decide_eq_false_2. }
  unfold execute, bind, uuidv4, finally. fold workDir.
  match goal with
  | |- context [try_catch ?body ?handler (bump w)] =>
      assert (Hbody : ∃ message w1,
        try_catch body handler (bump w) = (Ok (HostFault message), w1) ∧
        exec_log w1 = exec_log w ∧
        (host_fault H (S (ticks w)) (OpEnsureDir workDir) = None →
         message = lit "Unsupported language: " ++ language))
  end.
  { unfold try_catch, execute_body, bind, ensureDir, io, prepareFiles, ret.
    simpl. rewrite Hsw.
    destruct (host_fault H (S (ticks w)) (OpEnsureDir workDir)) as [e|]; simpl.
    - by eexists _, _.
    - destruct (disk w !! workDir); by eexists _, _. }
  destruct Hbody as (message & w1 & -> & Hlog & Hmsg).
  destruct (cleanup_spec H workDir w1) as (w2 & -> & Hlog2 & _).
  exists message, w2. split; [done|]. split; [congruence|done].
Qed.

End ExecutorExtras.

Section FilesExtras.

Variable H : Host.

Lemma under_refl p : under H p p = true.
Proof. unfold under. by rewrite bool_decide_eq_true_2. Qed.

Lemma removed_lookup (p q : jsstring) (d : gmap jsstring Node) :
  (under H p q = true ∨ d !! q = None) →
  filter (λ kv, under H p kv.1 = false) d !! q = None.
Proof.
  intros [Hu|Hn]; apply map_lookup_filter_None; [right|by left].
  intros x _. simpl. by rewrite Hu.
Qed.

(** Whatever happened during the run, [runTestCase] leaves none of its
    three files (input, output, error) on disk, provided the three
    [fs.remove] calls of its [finally] block are not failed by the
    host. *)
Theorem runTestCase_removes_its_files workDir exe run inp timeLimit
    memoryLimit i w :
  let inputFile :=
    path_join H workDir (lit "input_" ++ show_index i ++ lit ".txt") in
  let outputFile :=
    path_join H workDir (lit "output_" ++ show_index i ++ lit ".txt") in
  let errorFile :=
    path_join H workDir (lit "error_" ++ show_index i ++ lit ".txt") in
  (∀ t, host_fault H t (OpRemove inputFile) = None) →
  (∀ t, host_fault H t (OpRemove outputFile) = None) →
  (∀ t, host_fault H t (OpRemove errorFile) = None) →
  ∃ res w1,
    runTestCase H workDir exe run inp timeLimit memoryLimit i w = (Ok res, w1) ∧
    disk w1 !! inputFile = None ∧
    disk w1 !! outputFile = None ∧
    disk w1 !! errorFile = None.
Proof.
  intros inputFile outputFile errorFile Hin Hout Herr.
  destruct (runTestCase_facts H workDir exe run inp timeLimit memoryLimit i w)
    as (res & w1 & Hrun & _).
  exists res, w1. split; [done|].
  unfold runTestCase, finally in Hrun.
  fold inputFile outputFile errorFile in Hrun.
  match type of Hrun with
  | context [try_catch ?body ?handler w] =>
      destruct (try_catch body handler w) as [r w0]
  end.
  unfold try_catch, bind, remove in Hrun.
  rewrite (io_no_fault H (OpRemove inputFile)) in Hrun by apply Hin.
  cbn [fst snd ret] in Hrun.
  rewrite (io_no_fault H (OpRemove outputFile)) in Hrun by apply Hout.
  cbn [fst snd ret] in Hrun.
  rewrite (io_no_fault H (OpRemove errorFile)) in Hrun by apply Herr.
  cbn [fst snd ret] in Hrun.
  injection Hrun as _ <-. simpl.
  split; [|split].
  - apply removed_lookup. right. apply removed_lookup. right.
    apply removed_lookup. left. apply under_refl.
  - apply removed_lookup. right. apply removed_lookup. left. apply under_refl.
  - apply removed_lookup. left. apply under_refl.
Qed.

Lemma ensureDir_best_effort dir w :
  ∃ w1,
    try_catch (ensureDir H dir) (λ _, ret ()) w = (Ok (), w1) ∧
    exec_log w1 = exec_log w ∧
    ticks w1 = S (ticks w) ∧
    (∀ p, is_Some (disk w !! p) → disk w1 !! p = disk w !! p) ∧
    (host_fault H (ticks w) (OpEnsureDir dir) = None → is_Some (disk w1 !! dir)).
Proof.
  unfold try_catch, ensureDir, io, ret.
  destruct (host_fault H (ticks w) (OpEnsureDir dir)) as [e|]; simpl.
  - eexists. split; [done|]. split; [done|]. split; [done|]. by split.
  - destruct (disk w !! dir) as [n|] eqn:Hd; simpl.
    + eexists. split; [done|]. split; [done|]. split; [done|].
      split; [done|]. intros _. simpl. rewrite ?Hd. by eexists.
    + eexists. split; [done|]. split; [done|]. split; [done|]. simpl. split.
      * intros p [x Hp]. rewrite lookup_insert_ne; [done|]. congruence.
      * intros _. rewrite lookup_insert_eq. by eexists.
Qed.

(** [createDirectories] never throws and runs no command. A directory
    whose creation the host does not fail exists afterwards, whether or
    not creating another one failed; what was on disk before is still
    there. *)
Theorem createDirectories_best_effort w :
  ∃ w1,
    createDirectories H w = (Ok (), w1) ∧
    exec_log w1 = exec_log w ∧
    (∀ p, is_Some (disk w !! p) → disk w1 !! p = disk w !! p) ∧
    (∀ dir, dir ∈ dirs →
            (∀ t, host_fault H t (OpEnsureDir dir) = None) →
            is_Some (disk w1 !! dir)).
Proof.
  unfold createDirectories. revert w.
  induction dirs as [|d ds IH]; intros w.
  - exists w. simpl. unfold ret. split; [done|]. split; [done|].
    split; [done|]. by intros dir ?%elem_of_nil.
  - destruct (ensureDir_best_effort d w) as (w0 & Hstep & Hlog & _ & Hkeep & Hnew).
    destruct (IH w0) as (w1 & Hrest & Hlog1 & Hkeep1 & Hall).
    exists w1. split.
    { cbn [foldr]. unfold bind at 1. rewrite Hstep. exact Hrest. }
    split; [congruence|]. split.
    + intros p Hp. rewrite Hkeep1; [by apply Hkeep|]. by rewrite Hkeep.
    + intros dir [->|Hdir]%elem_of_cons Hok; [|by apply Hall].
      specialize (Hnew (Hok _)). by rewrite Hkeep1.
Qed.

End FilesExtras.

(** ** The submission route, continued *)

Section ServerExtras.

Variable H : Host.

(** The status of whatever [execute] returns is final. *)
Lemma execute_status_final id code language testCases timeLimit memoryLimit
    w r w1 :
  execute H id code language testCases timeLimit memoryLimit w = (Ok r, w1) →
  result_status r ∈ final_statuses.
Proof.
  intros Hrun.
  destruct (execute_facts H id code language testCases timeLimit memoryLimit w)
    as (r' & w1' & Hrun' & _ & Hr).
  rewrite Hrun in Hrun'. injection Hrun' as <- <-.
  destruct r as [err time|g|err]; simpl.
  - unfold final_statuses. list_member.
  - destruct Hr as (t & _ & -> & _). apply determine_status_final.
  - unfold final_statuses. list_member.
Qed.

Lemma apply_result_same result doc :
  same_submission doc (apply_result result doc).
Proof. by destruct result. Qed.

Lemma apply_result_status result doc :
  sub_status (apply_result result doc) = result_status result.
Proof. by destruct result. Qed.

(** [processSubmission] never throws: every exception is caught and, at
    worst, only logged. It does not start or finish other calls, and
    every submission stored before is still stored afterwards. *)
Theorem processSubmission_never_throws id problem code language s :
  ∃ s1,
    processSubmission H id problem code language s = (Ok (), s1) ∧
    pending s1 = pending s ∧ ran s1 = ran s ∧
    ∀ id', is_Some (store s !! id') → is_Some (store s1 !! id').
Proof.
  pose proof (growing_processSubmission H id problem code language s) as Hg.
  unfold processSubmission, try_catch in *.
  match goal with
  | |- context [match ?body s with _ => _ end] =>
      destruct (body s) as [[[]|e] s0]
  end.
  - by exists s0.
  - match goal with
    | |- context [match ?m s0 with _ => _ end] =>
        destruct (m s0) as [[[]|e'] s1]
    end; by exists s1.
Qed.

(** For an id that names no stored submission, [processSubmission] does
    nothing: no command is run, the disk, the submission store and the
    problem store are unchanged. *)
Theorem processSubmission_missing_submission id problem code language s :
  store s !! id = None →
  ∃ s1,
    processSubmission H id problem code language s = (Ok (), s1) ∧
    store s1 = store s ∧ problems s1 = problems s ∧
    exec_log (world s1) = exec_log (world s) ∧
    disk (world s1) = disk (world s).
Proof.
  intros Hnone.
  unfold processSubmission, try_catch, bind, findSubmission, db, ret.
  destruct (host_fault H (ticks (world s)) (OpFindSubmission id)); simpl.
  - destruct (host_fault H (S (ticks (world s))) (OpFindSubmission id)); simpl.
    + by eexists.
    + rewrite Hnone. by eexists.
  - rewrite Hnone. by eexists.
Qed.

(** What [processSubmission] can leave in the submission store: nothing
    new, or a new version of the one record it was called for. *)
Lemma processSubmission_store id problem code language s :
  let s1 := (processSubmission H id problem code language s).2 in
  store s1 = store s ∨
  ∃ doc doc1,
    store s !! id = Some doc ∧
    store s1 = <[id := doc1]> (store s) ∧
    same_submission doc doc1 ∧
    sub_status doc1 ∈ Compiling :: final_statuses.
Proof.
  unfold processSubmission, try_catch, bind, findSubmission, saveSubmission,
    updateSubmissionStats, updateUserStats, db, lift, ret.
  simpl.
  repeat case_match; simplify_eq/=;
    rewrite ?lookup_insert_eq in *; simplify_eq;
    rewrite ?insert_insert_eq;
    first
      [ by left
      | right; eexists _, _; split; [eassumption|]; split; [reflexivity|];
        split;
        [ repeat match goal with
                 | |- context [apply_result ?r ?d] =>
                     pose proof (apply_result_same r d);
                     generalize dependent (apply_result r d); intros
                 end;
          unfold same_submission in *; simpl in *; intuition congruence
        | simpl; rewrite ?apply_result_status;
          first [ solve [list_member]
                | solve [apply list_elem_of_further;
                  eapply execute_status_final; eassumption] ] ] ].
Qed.

(** Grading one submission never touches the record of another, and the
    graded record keeps its user, problem, code, language and attempt
    number. *)
Theorem processSubmission_isolated id problem code language s :
  let s1 := (processSubmission H id problem code language s).2 in
  (∀ id', id' ≠ id → store s1 !! id' = store s !! id') ∧
  (∀ doc, store s !! id = Some doc →
          ∃ doc1, store s1 !! id = Some doc1 ∧ same_submission doc doc1).
Proof.
  intros s1.
  destruct (processSubmission_store id problem code language s)
    as [Hsame|(doc0 & doc1 & Hdoc0 & Hnew & Hid & _)]; fold s1 in Hsame || fold s1 in Hnew.
  - rewrite Hsame. split; [done|]. intros doc Hdoc. by exists doc.
  - rewrite Hnew. split.
    + intros id' Hne. by rewrite lookup_insert_ne.
    + intros doc Hdoc. exists doc1. rewrite lookup_insert_eq.
      split; [done|]. congruence.
Qed.

(** The statuses [processSubmission] writes: [compiling], the status of
    the executor's result, [runtime-error]. *)
Lemma processSubmission_statuses (P : Status → Prop) id problem code language s :
  P Compiling → (∀ st, st ∈ final_statuses → P st) →
  (∀ id' doc, store s !! id' = Some doc → P (sub_status doc)) →
  ∀ id' doc,
    store (processSubmission H id problem code language s).2 !! id' = Some doc →
    P (sub_status doc).
Proof.
  intros Hc Hf Hs id' doc.
  destruct (processSubmission_store id problem code language s)
    as [->|(doc0 & doc1 & _ & -> & _ & Hst)]; [apply Hs|].
  intros [[<- <-]|[_ Hl]]%lookup_insert_Some; [|by eapply Hs].
  apply elem_of_cons in Hst as [->|Hst]; [done|by apply Hf].
Qed.

(** With the submission stored and its [findById] and [save] calls never
    failed by the host, [processSubmission] leaves the submission in a
    final status: it is not left [pending], [compiling] or [running],
    whatever happens in the executor or in the statistics update. *)
Theorem processSubmission_reaches_final_status id problem code language s doc :
  store s !! id = Some doc →
  (∀ t, host_fault H t (OpFindSubmission id) = None) →
  (∀ t, host_fault H t (OpSaveSubmission id) = None) →
  ∃ doc1,
    store (processSubmission H id problem code language s).2 !! id = Some doc1 ∧
    sub_status doc1 ∈ final_statuses.
Proof.
  intros Hdoc Hfind Hsave.
  unfold processSubmission, try_catch, bind, findSubmission, saveSubmission,
    updateSubmissionStats, updateUserStats, db, lift, ret.
  simpl. rewrite !Hfind, Hdoc. simpl. rewrite !Hsave. simpl.
  destruct (execute H id code language _ _ _ _) as [[r|e] w1] eqn:Hrun; simpl.
  - rewrite !Hsave. simpl.
    destruct (host_fault H _ (OpSaveProblem _)) as [e|]; simpl.
    + rewrite !Hfind. simpl. rewrite lookup_insert_eq, !Hsave. simpl.
      rewrite lookup_insert_eq. eexists. split; [done|].
      simpl. unfold final_statuses. list_member.
    + rewrite lookup_insert_eq. eexists. split; [done|].
      rewrite apply_result_status. by eapply execute_status_final.
  - destruct (execute_returns H id code language (pr_testCases problem)
                (Some (pr_timeLimit problem * 1000)%Z)
                (Some (pr_memoryLimit problem * 1024 * 1024)%Z)
                (bump (bump (world s)))) as (r & w2 & Hok).
    simpl in Hrun. congruence.
Qed.

(** A failure while saving the problem's statistics overwrites the
    verdict: with the submission's own [findById] and [save] calls
    working and the problem's [save] failing with [e], the submission
    ends as [runtime-error] with [e]'s message as compilation error,
    whatever the executor returned, and the score stored for a graded
    run stays in the record. *)
Theorem statistics_failure_overwrites_verdict id problem code language s doc e :
  store s !! id = Some doc →
  (∀ t, host_fault H t (OpFindSubmission id) = None) →
  (∀ t, host_fault H t (OpSaveSubmission id) = None) →
  (∀ t, host_fault H t (OpSaveProblem (pr_id problem)) = Some e) →
  ∃ r w1 doc1,
    execute H id code language (pr_testCases problem)
            (Some (pr_timeLimit problem * 1000)%Z)
            (Some (pr_memoryLimit problem * 1024 * 1024)%Z)
            (bump (bump (world s))) = (Ok r, w1) ∧
    store (processSubmission H id problem code language s).2 !! id = Some doc1 ∧
    sub_status doc1 = RuntimeError ∧
    sub_compilationInfo doc1 =
      Some {| ci_success := false; ci_error := err_message e |} ∧
    (∀ g, r = GradedRun g → sub_result doc1 = Some g) ∧
    problems (processSubmission H id problem code language s).2 = problems s.
Proof.
  intros Hdoc Hfind Hsave Hstats.
  destruct (execute_returns H id code language (pr_testCases problem)
              (Some (pr_timeLimit problem * 1000)%Z)
              (Some (pr_memoryLimit problem * 1024 * 1024)%Z)
              (bump (bump (world s)))) as (r & w1 & Hrun).
  exists r, w1.
  unfold processSubmission, try_catch, bind, findSubmission, saveSubmission,
    updateSubmissionStats, updateUserStats, db, lift, ret.
  simpl. rewrite !Hfind, Hdoc. simpl. rewrite !Hsave. simpl.
  rewrite Hrun. simpl. rewrite !Hsave. simpl. rewrite Hstats. simpl.
  rewrite !Hfind. simpl. rewrite lookup_insert_eq, !Hsave. simpl.
  rewrite lookup_insert_eq. eexists. split; [done|]. split; [done|].
  split; [done|]. split; [done|]. split; [|done].
  by intros g ->.
Qed.


(** What the POST handler does, by kind of answer: a rejection changes
    nothing; a [201] passed every check, stored one new record and
    started one call. *)
Lemma post_submission_cases req s :
  ∃ response s1,
    post_submission H req s = (Ok response, s1) ∧
    (((∀ id status, response ≠ Created id status) ∧
      store s1 = store s ∧ problems s1 = problems s ∧
      pending s1 = pending s ∧ ran s1 = ran s ∧
      disk (world s1) = disk (world s) ∧
      exec_log (world s1) = exec_log (world s)) ∨
     (∃ id problem,
        response = Created id Pending ∧
        req_valid req = true ∧
        problems s !! req_problem req = Some problem ∧
        req_language req ∈ pr_allowedLanguages problem ∧
        (negb (pr_isPublic problem) || negb (pr_isApproved problem)) &&
        (negb (bool_decide (pr_author problem = req_user req)) &&
         negb (req_isAdmin req)) = false ∧
        ((0 < pr_maxAttempts problem)%Z →
         (Z.of_nat (attempts (req_user req) (req_problem req) (store s))
            < pr_maxAttempts problem)%Z) ∧
        store s !! id = None ∧
        store s1 =
          <[id := {| sub_user := req_user req; sub_problem := req_problem req;
                     sub_code := req_code req;
                     sub_language := req_language req;
                     sub_status := Pending;
                     sub_attemptNumber :=
                       S (attempts (req_user req) (req_problem req) (store s));
                     sub_result := None;
                     sub_compilationInfo := None |}]> (store s) ∧
        pending s1 = pending s ++
          [{| t_submissionId := id; t_problem := problem;
              t_code := req_code req; t_language := req_language req |}] ∧
        ran s1 = ran s ∧ problems s1 = problems s)).
Proof.
  assert (Hsucc : ∀ n, Z.to_nat (Z.of_nat n + 1) = S n) by (intros; lia).
  unfold post_submission, try_catch, bind, findProblem, countSubmissions,
    newObjectId, insertSubmission, start, db, ret, attempts.
  repeat case_match; simplify_eq/=; eexists _, _; (split; [done|]);
    rewrite ?Hsucc;
    first
      [ by left
      | right;
        repeat match goal with
               | Hb : negb _ = false |- _ => apply negb_false_iff in Hb
               | Hb : bool_decide _ = true |- _ =>
                   apply bool_decide_eq_true in Hb
               | Hb : (_ <=? _)%Z = false |- _ => apply Z.leb_gt in Hb
               | Hb : (_ <? _)%Z = false |- _ => apply Z.ltb_ge in Hb
               end;
        eexists _, _; split; [done|]; split; [done|]; split; [done|];
        split; [done|]; split; [done|]; split; [intros; lia|];
        split; [done|]; split; [done|done] ].
Qed.

Lemma post_submission_statuses req s :
  (∀ id doc, store s !! id = Some doc → sub_status doc ≠ Running) →
  ∀ id doc, store (post_submission H req s).2 !! id = Some doc →
            sub_status doc ≠ Running.
Proof.
  intros Hs id doc.
  destruct (post_submission_cases req s) as (response & s1 & Hpost & Hcases).
  rewrite Hpost. simpl.
  destruct Hcases
    as [(_ & Hst & _)
       |(id0 & problem & _ & _ & _ & _ & _ & _ & _ & Hst & _)];
    rewrite Hst; [apply Hs|].
  intros [[<- <-]|[_ Hl]]%lookup_insert_Some; [done|by eapply Hs].
Qed.

(** The status [running] is never stored: over every sequence of POST
    requests and completed [processSubmission] calls, beginning with an
    empty submission store, no stored submission has it. *)
Theorem running_is_never_stored ps es id doc :
  store (serve H es (initial_server ps)) !! id = Some doc →
  sub_status doc ≠ Running.
Proof.
  assert (Hinv : ∀ s,
            (∀ id doc, store s !! id = Some doc → sub_status doc ≠ Running) →
            ∀ id doc, store (serve H es s) !! id = Some doc →
                      sub_status doc ≠ Running).
  { unfold serve. induction es as [|e es' IH]; intros s Hs; [done|].
    simpl. apply IH. destruct e as [req|k]; simpl.
    - by apply post_submission_statuses.
    - unfold run_task. destruct (pending s !! k) as [t|]; [|done].
      apply (processSubmission_statuses (λ st, st ≠ Running)); try done.
      intros st Hst ->. unfold final_statuses in Hst. list_cases Hst. }
  apply Hinv. intros id' doc' Hl. simpl in Hl. by rewrite lookup_empty in Hl.
Qed.

(** The POST handler never throws; unless it answers [201], it changes
    neither the submission store nor the problem store, starts no
    grading run, and touches neither the disk nor the command log. *)
Theorem post_submission_rejections_change_nothing req s :
  ∃ response s1,
    post_submission H req s = (Ok response, s1) ∧
    ((∃ id, response = Created id Pending) ∨
     (store s1 = store s ∧ problems s1 = problems s ∧
      pending s1 = pending s ∧ ran s1 = ran s ∧
      disk (world s1) = disk (world s) ∧
      exec_log (world s1) = exec_log (world s))).
Proof.
  destruct (post_submission_cases req s)
    as (response & s1 & Hpost & [(_ & Hsame)|(id & problem & Hcreated & _)]);
    exists response, s1; (split; [done|]).
  - by right.
  - left. by exists id.
Qed.

(** A submission is only created when every check passed: the request
    was valid, the problem exists, the language is allowed for it, the
    problem is public and approved or the user is its author or an
    admin, and, when the problem limits attempts, the user has fewer
    stored submissions for it than the limit. *)
Theorem created_only_if_allowed req s id status s1 :
  post_submission H req s = (Ok (Created id status), s1) →
  req_valid req = true ∧
  ∃ problem,
    problems s !! req_problem req = Some problem ∧
    req_language req ∈ pr_allowedLanguages problem ∧
    ((pr_isPublic problem = true ∧ pr_isApproved problem = true) ∨
     pr_author problem = req_user req ∨ req_isAdmin req = true) ∧
    ((0 < pr_maxAttempts problem)%Z →
     (Z.of_nat (attempts (req_user req) (req_problem req) (store s))
        < pr_maxAttempts problem)%Z).
Proof.
  intros Hpost.
  destruct (post_submission_cases req s)
    as (response & s1' & Hpost' & Hcases).
  rewrite Hpost in Hpost'. injection Hpost' as <- <-.
  destruct Hcases as [(Hno & _)|(id0 & problem & _ & Hv & Hp & Hl & Ha & Hn & _)];
    [by destruct (Hno id status)|].
  split; [done|]. exists problem. split; [done|]. split; [done|].
  split; [|done].
  destruct (pr_isPublic problem), (pr_isApproved problem), (req_isAdmin req),
           (bool_decide (pr_author problem = req_user req)) eqn:Hauthor;
    simpl in Ha; try discriminate;
    first [left; done | right; right; done
          | apply bool_decide_eq_true in Hauthor; right; left; exact Hauthor].
Qed.

(** The record stored for an accepted request carries the request's
    user, problem, code and language, is [pending], has no result yet,
    and its attempt number is one more than the number of submissions
    the user had stored for the problem; the started grading run gets
    the submission id, the problem document read by the handler, and the
    same code and language. *)
Theorem created_record req s id status s1 :
  post_submission H req s = (Ok (Created id status), s1) →
  ∃ problem,
    problems s !! req_problem req = Some problem ∧
    store s1 !! id =
      Some {| sub_user := req_user req; sub_problem := req_problem req;
              sub_code := req_code req; sub_language := req_language req;
              sub_status := Pending;
              sub_attemptNumber :=
                S (attempts (req_user req) (req_problem req) (store s));
              sub_result := None; sub_compilationInfo := None |} ∧
    pending s1 = pending s ++
      [{| t_submissionId := id; t_problem := problem;
          t_code := req_code req; t_language := req_language req |}] ∧
    attempts (req_user req) (req_problem req) (store s1) =
      S (attempts (req_user req) (req_problem req) (store s)).
Proof.
  intros Hpost.
  destruct (post_submission_cases req s)
    as (response & s1' & Hpost' & Hcases).
  rewrite Hpost in Hpost'. injection Hpost' as <- <-.
  destruct Hcases
    as [(Hno & _)|(id0 & problem & [= <-] & _ & Hp & _ & _ & _ & Hfresh & Hst & Hpend & _)];
    [by destruct (Hno id status)|].
  exists problem. split; [done|]. rewrite Hst, lookup_insert_eq.
  split; [done|]. split; [done|].
  unfold attempts. rewrite map_filter_insert_True by done.
  rewrite map_size_insert_None; [done|].
  apply map_lookup_filter_None. by left.
Qed.

End ServerExtras.

(** ** The further properties at concrete inputs *)

Section MoreWitnesses.

Import Examples ServerExamples MoreExamples.

Lemma normalizeOutput_empty_iff_witness :
  all_whitespace [32; 10; 9] ∧ normalizeOutput [32; 10; 9] = [].
Proof.
  assert (Hws : all_whitespace [32; 10; 9]) by (by repeat constructor).
  split; [exact Hws|].
  by apply (proj2 (normalizeOutput_empty_iff [32; 10; 9])).
Defined.

Lemma normalizeOutput_ignores_outer_whitespace_witness :
  all_whitespace [32; 10] ∧ all_whitespace [13; 10] ∧
  normalizeOutput ([32; 10] ++ lit "a" ++ [13; 10]) = normalizeOutput (lit "a").
Proof.
  assert (Hpre : all_whitespace [32; 10]) by (by repeat constructor).
  assert (Hpost : all_whitespace [13; 10]) by (by repeat constructor).
  split; [exact Hpre|]. split; [exact Hpost|].
  by apply normalizeOutput_ignores_outer_whitespace.
Defined.

Lemma execute_command_budget_witness :
  ∃ r w1,
    execute (host_with echo_exec) 7 (lit "print(input())") (lit "python")
            [case_of (lit "1") (lit "1") (Some 10%Z)] (Some 1000%Z) None
            empty_world = (Ok r, w1) ∧
    ran_at_most 1 empty_world w1.
Proof.
  destruct (execute_command_budget (host_with echo_exec) 7
              (lit "print(input())") (lit "python")
              [case_of (lit "1") (lit "1") (Some 10%Z)] (Some 1000%Z) None
              empty_world) as (r & w1 & Hrun & _ & Hinterpreted & _).
  exists r, w1. split; [exact Hrun|].
  eapply Hinterpreted; reflexivity.
Defined.

Lemma execute_one_result_per_case_witness :
  ∃ g w1,
    execute (host_with crash_then_timeout_exec) 7 (lit "import sys")
            (lit "python")
            [case_of (lit "1") (lit "1") (Some 10%Z);
             case_of (lit "2") (lit "2") (Some 10%Z)]
            (Some 1000%Z) None empty_world = (Ok (GradedRun g), w1) ∧
    length (g_testCaseResults g) = 2%nat.
Proof.
  assert (Hrun : ∃ g w1,
            execute (host_with crash_then_timeout_exec) 7 (lit "import sys")
                    (lit "python")
                    [case_of (lit "1") (lit "1") (Some 10%Z);
                     case_of (lit "2") (lit "2") (Some 10%Z)]
                    (Some 1000%Z) None empty_world = (Ok (GradedRun g), w1)).
  { eexists _, _. vm_compute. reflexivity. }
  destruct Hrun as (g & w1 & Hrun). exists g, w1. split; [exact Hrun|].
  by destruct (execute_one_result_per_case _ _ _ _ _ _ _ _ _ _ Hrun)
    as (_ & Hlen & _).
Defined.




Lemma caught_exception_forces_failure_witness :
  Exists (λ r, ∃ e, error r = errorMessage_of e)
         [passed_result; timed_out_result] ∧
  determine_status 10 20 [passed_result; timed_out_result] ∈ failure_statuses.
Proof.
  assert (Hex : Exists (λ r, ∃ e, error r = errorMessage_of e)
                       [passed_result; timed_out_result]).
  { apply Exists_cons_tl, Exists_cons_hd.
    by exists (exec_error (Some (lit "SIGTERM")) CodeUndefined []). }
  split; [exact Hex|]. by apply caught_exception_forces_failure.
Defined.

Lemma caught_exception_classification_witness :
  classify_error
    (errorMessage_of (exec_error (Some (lit "SIGKILL")) (CodeNumber 1) []))
    = Some TimeLimitExceeded.
Proof.
  apply (proj1 (caught_exception_classification
                  (exec_error (Some (lit "SIGKILL")) (CodeNumber 1) []))).
  by right.
Defined.

Lemma unsupported_language_result_witness :
  ∃ message w1,
    execute (host_with echo_exec) 7 (lit "puts 1") (lit "ruby")
            [case_of (lit "1") (lit "1") (Some 10%Z)] (Some 1000%Z) None
            empty_world = (Ok (HostFault message), w1) ∧
    exec_log w1 = [] ∧
    message = lit "Unsupported language: " ++ lit "ruby".
Proof.
  destruct (unsupported_language_result (host_with echo_exec) 7 (lit "puts 1")
              (lit "ruby") [case_of (lit "1") (lit "1") (Some 10%Z)]
              (Some 1000%Z) None empty_world)
    as (message & w1 & Hrun & Hlog & Hmessage);
    try (intros Heq; vm_compute in Heq; discriminate).
  exists message, w1. split; [exact Hrun|]. split; [exact Hlog|].
  by apply Hmessage.
Defined.

Lemma runTestCase_removes_its_files_witness :
  ∃ res w1,
    runTestCase (host_with echo_exec) (lit "/tmp/0001") (lit "/tmp/0001/s.py")
                (lit "python3 /tmp/0001/s.py") (lit "1") 1000 1024 0
                empty_world = (Ok res, w1) ∧
    disk w1 !! path_join (host_with echo_exec) (lit "/tmp/0001")
                 (lit "input_" ++ show_index 0 ++ lit ".txt") = None.
Proof.
  destruct (runTestCase_removes_its_files (host_with echo_exec) (lit "/tmp/0001")
              (lit "/tmp/0001/s.py") (lit "python3 /tmp/0001/s.py") (lit "1")
              1000 1024 0 empty_world)
    as (res & w1 & Hrun & Hin & _); try (intros t; reflexivity).
  by exists res, w1.
Defined.

Lemma createDirectories_best_effort_witness :
  ∃ w1,
    createDirectories (host_with echo_exec) empty_world = (Ok (), w1) ∧
    is_Some (disk w1 !! lit "./code_execution/temp").
Proof.
  destruct (createDirectories_best_effort (host_with echo_exec) empty_world)
    as (w1 & Hrun & _ & _ & Hall).
  exists w1. split; [exact Hrun|].
  apply Hall; [|intros t; reflexivity].
  unfold dirs. list_member.
Defined.

Lemma processSubmission_never_throws_witness :
  is_Some (store in_flight !! 5) ∧
  ∃ s1,
    processSubmission (host_with echo_exec) 5 problem_1
      (lit "print(input())") (lit "python") in_flight = (Ok (), s1) ∧
    is_Some (store s1 !! 5).
Proof.
  assert (Hstored : is_Some (store in_flight !! 5)) by (by eexists).
  split; [exact Hstored|].
  destruct (processSubmission_never_throws (host_with echo_exec) 5 problem_1
              (lit "print(input())") (lit "python") in_flight)
    as (s1 & Hrun & _ & _ & Hkept).
  exists s1. split; [exact Hrun|]. by apply Hkept.
Defined.

Lemma processSubmission_missing_submission_witness :
  store in_flight !! 9 = None ∧
  ∃ s1,
    processSubmission (host_with echo_exec) 9 problem_1
      (lit "print(input())") (lit "python") in_flight = (Ok (), s1) ∧
    store s1 = store in_flight.
Proof.
  assert (Hnone : store in_flight !! 9 = None) by reflexivity.
  split; [exact Hnone|].
  destruct (processSubmission_missing_submission (host_with echo_exec) 9
              problem_1 (lit "print(input())") (lit "python") in_flight Hnone)
    as (s1 & Hrun & Hstore & _).
  by exists s1.
Defined.

Lemma processSubmission_isolated_witness :
  ∃ doc doc1,
    store in_flight !! 5 = Some doc ∧
    store (processSubmission (host_with echo_exec) 5 problem_1
             (lit "print(input())") (lit "python") in_flight).2 !! 5
      = Some doc1 ∧
    same_submission doc doc1.
Proof.
  assert (Hdoc : ∃ doc, store in_flight !! 5 = Some doc) by (by eexists).
  destruct Hdoc as (doc & Hdoc).
  destruct (proj2 (processSubmission_isolated (host_with echo_exec) 5 problem_1
                     (lit "print(input())") (lit "python") in_flight) doc Hdoc)
    as (doc1 & Hdoc1 & Hsame).
  by exists doc, doc1.
Defined.

Lemma processSubmission_reaches_final_status_witness :
  ∃ doc1,
    store (processSubmission (host_with echo_exec) 5 problem_1
             (lit "print(input())") (lit "python") in_flight).2 !! 5
      = Some doc1 ∧
    sub_status doc1 ∈ final_statuses.
Proof.
  assert (Hdoc : ∃ doc, store in_flight !! 5 = Some doc) by (by eexists).
  destruct Hdoc as (doc & Hdoc).
  apply (processSubmission_reaches_final_status (host_with echo_exec) 5
           problem_1 (lit "print(input())") (lit "python") in_flight doc Hdoc);
    intros t; reflexivity.
Defined.

Lemma statistics_failure_overwrites_verdict_witness :
  ∃ doc1,
    store (processSubmission failing_statistics_host 5 problem_1
             (lit "print(input())") (lit "python") in_flight).2 !! 5
      = Some doc1 ∧
    sub_status doc1 = RuntimeError ∧
    sub_compilationInfo doc1 =
      Some {| ci_success := false;
              ci_error := lit "problem store unavailable" |}.
Proof.
  assert (Hdoc : ∃ doc, store in_flight !! 5 = Some doc) by (by eexists).
  destruct Hdoc as (doc & Hdoc).
  destruct (statistics_failure_overwrites_verdict failing_statistics_host 5
              problem_1 (lit "print(input())") (lit "python") in_flight doc
              statistics_error Hdoc)
    as (r & w1 & doc1 & _ & Hdoc1 & Hstatus & Hinfo & _);
    try (intros t; reflexivity).
  by exists doc1.
Defined.


Lemma running_is_never_stored_witness :
  ∃ doc,
    store (serve (host_with echo_exec) [Post request_1; RunTask 0]
             (initial_server {[ 1 := problem_1 ]})) !! 2 = Some doc ∧
    sub_status doc ≠ Running.
Proof.
  assert (Hdoc : ∃ doc,
            store (serve (host_with echo_exec) [Post request_1; RunTask 0]
                     (initial_server {[ 1 := problem_1 ]})) !! 2 = Some doc).
  { eexists. vm_compute. reflexivity. }
  destruct Hdoc as (doc & Hdoc). exists doc. split; [exact Hdoc|].
  exact (running_is_never_stored _ _ _ _ _ Hdoc).
Defined.

Lemma created_only_if_allowed_witness :
  ∃ id s1,
    post_submission (host_with echo_exec) request_1
                    (initial_server {[ 1 := problem_1 ]}) =
      (Ok (Created id Pending), s1) ∧
    req_valid request_1 = true ∧
    ∃ problem, req_language request_1 ∈ pr_allowedLanguages problem.
Proof.
  assert (Hpost : ∃ id s1,
            post_submission (host_with echo_exec) request_1
                            (initial_server {[ 1 := problem_1 ]}) =
              (Ok (Created id Pending), s1)).
  { eexists _, _. vm_compute. reflexivity. }
  destruct Hpost as (id & s1 & Hpost). exists id, s1. split; [exact Hpost|].
  destruct (created_only_if_allowed _ _ _ _ _ _ Hpost)
    as (Hvalid & problem & _ & Hlanguage & _).
  split; [exact Hvalid|]. by exists problem.
Defined.

Lemma created_record_witness :
  ∃ id s1,
    post_submission (host_with echo_exec) request_1
                    (initial_server {[ 1 := problem_1 ]}) =
      (Ok (Created id Pending), s1) ∧
    attempts 3 1 (store s1) = 1%nat.
Proof.
  assert (Hpost : ∃ id s1,
            post_submission (host_with echo_exec) request_1
                            (initial_server {[ 1 := problem_1 ]}) =
              (Ok (Created id Pending), s1)).
  { eexists _, _. vm_compute. reflexivity. }
  destruct Hpost as (id & s1 & Hpost). exists id, s1. split; [exact Hpost|].
  destruct (created_record _ _ _ _ _ _ Hpost) as (problem & _ & _ & _ & Hcount).
  exact Hcount.
Defined.

End MoreWitnesses.
